(** * The datastore transaction coordinator of gcloud-node

    A shallow embedding of [lib/datastore/index.js]: the [Transaction]
    object, its request sender [makeReq] and the batch operations built on
    the entity codec, followed by the properties of the design document
    that concern them. *)

From Stdlib Require Import List String ZArith Bool Lia.
Import ListNotations.
Open Scope string_scope.
Open Scope list_scope.

Set Warnings "-register-all".

(** ** JavaScript values *)

Module JS.

(** The values that flow through the coordinator: request and response
    bodies are parsed JSON, a transaction id is [null] or a response
    body.  Numbers are the integer-valued ones; no arithmetic is done on
    them, only the truthiness test. *)
Inductive value : Type :=
| VUndefined
| VNull
| VBool (b : bool)
| VNum (n : Z)
| VStr (s : string)
| VArr (items : list value)
| VObj (fields : list (string * value)).

(** ToBoolean: what [if (v)], [!v], [!!v] and [a && b] test. *)
Definition truthy (v : value) : bool :=
  match v with
  | VUndefined | VNull => false
  | VBool b => b
  | VNum n => negb (n =? 0)%Z
  | VStr s => negb (s =? "")
  | VArr _ | VObj _ => true
  end.

Fixpoint lookup (name : string) (fields : list (string * value)) : value :=
  match fields with
  | [] => VUndefined
  | (k, v) :: rest => if k =? name then v else lookup name rest
  end.

(** [o[name] = v] on the own properties of an object: an existing
    property keeps its place, a new one goes last. *)
Fixpoint assign (name : string) (v : value) (fields : list (string * value))
  : list (string * value) :=
  match fields with
  | [] => [(name, v)]
  | (k, w) :: rest =>
      if k =? name then (k, v) :: rest else (k, w) :: assign name v rest
  end.

(** [v.name] for a [v] that is neither [undefined] nor [null]. *)
Definition prop (v : value) (name : string) : value :=
  match v with
  | VObj fields => lookup name fields
  | VArr items =>
      if name =? "length" then VNum (Z.of_nat (List.length items))
      else VUndefined
  | VStr s =>
      if name =? "length" then VNum (Z.of_nat (String.length s))
      else VUndefined
  | _ => VUndefined
  end.

(** Whether an object has a property of that name, whatever its value. *)
Definition hasOwn (v : value) (name : string) : bool :=
  match v with
  | VObj fields => existsb (fun kx => fst kx =? name) fields
  | _ => false
  end.

(** What a [throw] carries.  [TypeError] is raised by the runtime (a
    property read on [undefined], a call of a non-function); [Error] is
    [new Error(msg)], the only error the library constructs. *)
Inductive exn : Type :=
| TypeError (msg : string)
| Error (msg : string).

(** The design document sorts the errors thrown at the caller into kinds:
    a ValidationError for malformed input, an EncodingError for a value
    the codec has no type for.  Both are an [Error] thrown synchronously. *)
Definition ValidationError (msg : string) : exn := Error msg.
Definition EncodingError (msg : string) : exn := Error msg.

Inductive result (A : Type) : Type :=
| Ok (a : A)
| Throw (e : exn).
Arguments Ok {A} a.
Arguments Throw {A} e.

(** A function that may throw, applied to the items of an array in
    order; the first throw ends it. *)
Definition traverse {A B} (f : A -> result B) : list A -> result (list B) :=
  fix go (l : list A) : result (list B) :=
    match l with
    | [] => Ok []
    | x :: rest =>
        match f x with
        | Throw e => Throw e
        | Ok y =>
            match go rest with
            | Throw e => Throw e
            | Ok ys => Ok (y :: ys)
            end
        end
    end.

Definition isNullish (v : value) : bool :=
  match v with VUndefined | VNull => true | _ => false end.

(** [v.name] in general: reading a property of [undefined] or [null]
    throws. *)
Definition member (v : value) (name : string) : result value :=
  if isNullish v
  then Throw (TypeError ("Cannot read property '" ++ name ++ "' of " ++
                         (match v with VNull => "null" | _ => "undefined" end))%string)
  else Ok (prop v name).

End JS.
Import JS.

(** ** The entity codec as the coordinator sees it

    [entity.js] is used through five functions.  Keys and entities are the
    caller's; the protos are JSON.  Each function may throw. *)

Class EntityCodec (Key Obj : Type) : Type := {
  keyToKeyProto : value -> Key -> result value;
  keyFromKeyProto : value -> result Key;
  entityToEntityProto : Obj -> result (list (string * value));
  entityFromEntityProto : value -> result Obj;
  isKeyComplete : Key -> bool
}.

(** ** The coordinator *)

Module Datastore.

Definition DATASTORE_BASE_URL : string :=
  "https://www.googleapis.com/datastore/v1beta2/datasets".
Definition MODE_NON_TRANSACTIONAL : string := "NON_TRANSACTIONAL".
Definition MODE_TRANSACTIONAL : string := "TRANSACTIONAL".

(** The fields of a [Transaction] object.  The constructor initialises
    [isFinalized]; [rollback], [commit] and [finalize] use a property
    named [finalized], which is therefore [undefined] on a new object.
    The [conn] field is the request sender, seen through the requests
    it is given (below). *)
Record Transaction : Type := {
  datasetId : string;
  id : value;
  isFinalized : bool;
  finalized : value
}.

(** [new Transaction(conn, datasetId)] *)
Definition newTransaction (datasetId : string) : Transaction :=
  {| datasetId := datasetId;
     id := VNull;
     isFinalized := false;
     finalized := VUndefined |}.

(** The two properties of the global object the module touches:
    [keysProto], assigned without declaration in [getAll] and [delAll],
    and [id], which is what [this.id] reads inside the callbacks given
    to [forEach] there (the file is not in strict mode, so [this] is the
    global object in a function called without a receiver). *)
Record Global : Type := {
  g_id : value;
  keysProto : value
}.

(** The options object given to [conn.req]. *)
Record Request : Type := {
  method : string;
  uri : string;
  json : value
}.

(** A callback argument of a public method: omitted, or a function of
    the caller, known by a name. *)
Inductive callback : Type :=
| CbUndefined
| CbFun (f : nat).

(** The function each method hands to [makeReq], one constructor per
    function expression, carrying the variable it closes over. *)
Inductive handler : Type :=
| HBegin (cb : callback)
| HRollback (cb : callback)
| HCommit (cb : callback)
| HGetAll (cb : callback)
| HPutAll (cb : callback)
| HDelAll (cb : callback).

Section Coordinator.

Context {Key Obj : Type} `{Codec : EntityCodec Key Obj}.

(** An argument given to a caller's callback. *)
Inductive arg : Type :=
| AVal (v : value)
| AKeys (ks : list Key)
| AObjs (os : list Obj).

(** What the coordinator does to its environment, in order. *)
Inductive event : Type :=
| Req (r : Request) (h : handler)
    (* conn.req(r, function(err, res, body) {...h...}) *)
| Call (f : nat) (args : list arg)
    (* a caller's callback is invoked *)
| KeyToKeyProto (d : value) (k : Key).
    (* entity.keyToKeyProto(d, k) is called *)

Record World : Type := {
  txn : Transaction;
  global : Global;
  trace : list event
}.

(** Computations: state passing with exceptions.  The state reached
    when an exception is thrown is kept, as a [throw] undoes
    nothing. *)
Definition M (A : Type) : Type := World -> World * result A.

Definition ret {A} (a : A) : M A := fun w => (w, Ok a).
Definition throw {A} (e : exn) : M A := fun w => (w, Throw e).
Definition bind {A B} (m : M A) (k : A -> M B) : M B :=
  fun w =>
    match m w with
    | (w', Ok a) => k a w'
    | (w', Throw e) => (w', Throw e)
    end.
Definition lift {A} (r : result A) : M A := fun w => (w, r).

Definition this : M Transaction := fun w => (w, Ok (txn w)).
Definition emit (e : event) : M unit :=
  fun w => ({| txn := txn w; global := global w;
               trace := trace w ++ [e] |}, Ok tt).
Definition set_txn (t : Transaction) : M unit :=
  fun w => ({| txn := t; global := global w; trace := trace w |}, Ok tt).
Definition the_global : M Global := fun w => (w, Ok (global w)).
Definition set_global (g : Global) : M unit :=
  fun w => ({| txn := txn w; global := g; trace := trace w |}, Ok tt).


Declare Scope js_scope.
Delimit Scope js_scope with js.
Notation "x <- m ;; k" := (bind m (fun x => k))
  (at level 61, m at next level, right associativity) : js_scope.
Notation "m ;; k" := (bind m (fun _ => k))
  (at level 61, right associativity) : js_scope.
Open Scope js_scope.

(** [l.forEach(f)] *)
Fixpoint forEach {A} (l : list A) (f : A -> M unit) : M unit :=
  match l with
  | [] => ret tt
  | x :: rest => f x ;; forEach rest f
  end.

(** [callback(args)] *)
Definition invoke (cb : callback) (args : list arg) : M unit :=
  match cb with
  | CbUndefined => throw (TypeError "undefined is not a function")
  | CbFun f => emit (Call f args)
  end.

(** [callback && callback(args)] *)
Definition guarded (cb : callback) (args : list arg) : M unit :=
  match cb with
  | CbUndefined => ret tt
  | CbFun _ => invoke cb args
  end.

(** [that.id = v] and [that.finalized = v] *)
Definition set_id (v : value) : M unit :=
  t <- this ;;
  set_txn {| datasetId := datasetId t; id := v;
             isFinalized := isFinalized t; finalized := finalized t |}.

Definition set_finalized (v : value) : M unit :=
  t <- this ;;
  set_txn {| datasetId := datasetId t; id := id t;
             isFinalized := isFinalized t; finalized := v |}.

(** [this.conn.req(opts, cb)]: the request leaves; its callback runs when
    the response arrives ([makeReq_callback] below). *)
Definition conn_req (opts : Request) (cb : handler) : M unit :=
  emit (Req opts cb).

Definition makeReq (meth : string) (req : value) (cb : handler) : M unit :=
  t <- this ;;
  conn_req {| method := "POST";
              uri := (DATASTORE_BASE_URL ++ "/" ++ datasetId t ++ "/" ++ meth)%string;
              json := req |} cb.

Definition begin (cb : callback) : M unit :=
  makeReq "beginTransaction" VNull (HBegin cb).

Definition rollback (cb : callback) : M unit :=
  t <- this ;;
  let req := VObj [("transaction", id t)] in
  makeReq "rollback" req (HRollback cb).

Definition commit (cb : callback) : M unit :=
  t <- this ;;
  let req := VObj [("transaction", id t)] in
  makeReq "commit" req (HCommit cb).

Definition finalize (cb : callback) : M unit :=
  t <- this ;;
  if negb (truthy (finalized t)) then commit cb
  else invoke cb [].

(** [entity.keyToKeyProto(d, k)], the call recorded. *)
Definition call_keyToKeyProto (d : value) (k : Key) : M value :=
  emit (KeyToKeyProto d k) ;;
  lift (keyToKeyProto d k).

(** [keysProto = []] and [keysProto.push(p)], on the global object. *)
Definition reset_keysProto : M unit :=
  g <- the_global ;;
  set_global {| g_id := g_id g; keysProto := VArr [] |}.

Definition push_keysProto (p : value) : M unit :=
  g <- the_global ;;
  match keysProto g with
  | VArr items => set_global {| g_id := g_id g; keysProto := VArr (items ++ [p]) |}
  | _ => throw (TypeError "keysProto.push is not a function")
  end.

(** The function given to [keys.forEach] in [getAll] and [delAll],
    [keysProto.push(entity.keyToKeyProto(this.id, k))]: its [this] is the
    global object.  [keysProto.push] is read before the argument is
    computed. *)
Definition encodeKey (k : Key) : M unit :=
  g <- the_global ;;
  if isNullish (keysProto g) then
    throw (TypeError "Cannot read property 'push' of undefined")
  else
    p <- call_keyToKeyProto (g_id g) k ;;
    push_keysProto p.

Definition getAll (keys : list Key) (cb : callback) : M unit :=
  reset_keysProto ;;
  forEach keys encodeKey ;;
  g <- the_global ;;
  makeReq "lookup" (VObj [("keys", keysProto g)]) (HGetAll cb).

(** The body of the loop of [putAll], on [keys[i]] and [objs[i]], with the
    two buckets of [req.mutation]. *)
Definition putOne (k : Key) (o : Obj) (update insertAutoId : list value)
  : M (list value * list value) :=
  e <- lift (entityToEntityProto o) ;;
  t <- this ;;
  kp <- call_keyToKeyProto (id t) k ;;
  let e := VObj (assign "key" kp e) in
  if isKeyComplete k then ret (update ++ [e], insertAutoId)
  else ret (update, insertAutoId ++ [e]).

(** The loop itself.  It runs after the guard on the lengths, so [keys]
    and [objs] are traversed together. *)
Fixpoint putLoop (keys : list Key) (objs : list Obj)
  (update insertAutoId : list value) : M (list value * list value) :=
  match keys, objs with
  | k :: keys', o :: objs' =>
      b <- putOne k o update insertAutoId ;;
      putLoop keys' objs' (fst b) (snd b)
  | _, _ => ret (update, insertAutoId)
  end.

Definition putAll (keys : list Key) (objs : list Obj) (cb : callback)
  : M unit :=
  if negb (List.length keys =? List.length objs)%nat then
    throw (Error "The length of the keys don't match the length of the objects")
  else
    b <- putLoop keys objs [] [] ;;
    let req := VObj [("mode", VStr MODE_NON_TRANSACTIONAL);
                     ("mutation", VObj [("update", VArr (fst b));
                                        ("insertAutoId", VArr (snd b))])] in
    makeReq "commit" req (HPutAll cb).

Definition put (key : Key) (obj : Obj) (cb : callback) : M unit :=
  putAll [key] [obj] cb.

Definition delAll (keys : list Key) (cb : callback) : M unit :=
  reset_keysProto ;;
  forEach keys encodeKey ;;
  g <- the_global ;;
  let req := VObj [("mode", VStr MODE_NON_TRANSACTIONAL);
                   ("mutation", VObj [("delete", keysProto g)])] in
  makeReq "commit" req (HDelAll cb).

Definition del (key : Key) (cb : callback) : M unit :=
  delAll [key] cb.

Definition runQuery : M unit :=
  throw (Error "not implemented").

(** The loop over [resp.found] in the response function of [getAll]. *)
Fixpoint decodeFound (found : list value) (keys : list Key)
  (results : list Obj) : M (list Key * list Obj) :=
  match found with
  | [] => ret (keys, results)
  | f :: rest =>
      e <- lift (member f "entity") ;;
      kp <- lift (member e "key") ;;
      k <- lift (keyFromKeyProto kp) ;;
      e' <- lift (member f "entity") ;;
      r <- lift (entityFromEntityProto e') ;;
      decodeFound rest (keys ++ [k]) (results ++ [r])
  end.

(** The functions handed to [makeReq], applied to [(err, resp)]. *)
Definition onResponse (h : handler) (err resp : value) : M unit :=
  match h with
  | HBegin cb =>
      (if negb (truthy err) then set_id resp else ret tt) ;;
      guarded cb [AVal err]
  | HRollback cb =>
      set_finalized (VBool (truthy err)) ;;
      guarded cb [AVal err]
  | HCommit cb =>
      set_finalized (VBool (truthy err)) ;;
      guarded cb [AVal err]
  | HGetAll cb =>
      if truthy err then invoke cb [AVal err]
      else
        found <- lift (member resp "found") ;;
        match found with
        | VArr items =>
            b <- decodeFound items [] [] ;;
            guarded cb [AVal VNull; AKeys (fst b); AObjs (snd b)]
        | VUndefined | VNull =>
            throw (TypeError "Cannot read property 'forEach' of undefined")
        | _ => throw (TypeError "resp.found.forEach is not a function")
        end
  | HPutAll cb => invoke cb [AVal err; AVal resp]
  | HDelAll cb => guarded cb [AVal err]
  end.

(** The function [makeReq] gives to [conn.req], applied to
    [(err, res, body)] when the response of a request arrives; [cb] is
    the function [makeReq] was given. *)
Definition makeReq_callback (cb : handler) (err res body : value) : M unit :=
  if truthy body && truthy (prop body "error")
  then onResponse cb (prop body "error") VNull
  else onResponse cb err body.

(** The pair [makeReq] hands on, for a response with that transport
    error and that body. *)
Definition delivered (err body : value) : value * value :=
  if truthy body && truthy (prop body "error")
  then (prop body "error", VNull)
  else (err, body).

(** What can happen to a coordinator: a call of one of its methods, or
    the arrival of the response of a request it sent. *)
Inductive action : Type :=
| ABegin (cb : callback)
| ARollback (cb : callback)
| ACommit (cb : callback)
| AFinalize (cb : callback)
| AGetAll (keys : list Key) (cb : callback)
| APutAll (keys : list Key) (objs : list Obj) (cb : callback)
| ADelAll (keys : list Key) (cb : callback)
| AResponse (h : handler) (err res body : value).

Definition perform (a : action) : M unit :=
  match a with
  | ABegin cb => begin cb
  | ARollback cb => rollback cb
  | ACommit cb => commit cb
  | AFinalize cb => finalize cb
  | AGetAll keys cb => getAll keys cb
  | APutAll keys objs cb => putAll keys objs cb
  | ADelAll keys cb => delAll keys cb
  | AResponse h err res body => makeReq_callback h err res body
  end.

(** The arrival of the response of a [beginTransaction] request. *)
Definition isBeginResponse (a : action) : bool :=
  match a with
  | AResponse (HBegin _) _ _ _ => true
  | _ => false
  end.

(** A run: each action starts in the state the previous one left, whether
    it returned or threw. *)
Fixpoint run (acts : list action) (w : World) : World :=
  match acts with
  | [] => w
  | a :: rest => run rest (fst (perform a w))
  end.

(** The requests among the events, in order. *)
Fixpoint requests (tr : list event) : list (Request * handler) :=
  match tr with
  | [] => []
  | Req r h :: rest => (r, h) :: requests rest
  | _ :: rest => requests rest
  end.

(** The calls of callbacks among the events, in order. *)
Fixpoint calls (tr : list event) : list (nat * list arg) :=
  match tr with
  | [] => []
  | Call f args :: rest => (f, args) :: calls rest
  | _ :: rest => calls rest
  end.

(** The calls of [keyToKeyProto] among the events, in order. *)
Fixpoint codecCalls (tr : list event) : list (value * Key) :=
  match tr with
  | [] => []
  | KeyToKeyProto d k :: rest => (d, k) :: codecCalls rest
  | _ :: rest => codecCalls rest
  end.

(** A world in which nothing has happened yet. *)
Definition initial (t : Transaction) (g : Global) : World :=
  {| txn := t; global := g; trace := [] |}.

(** Observations of a world: the transaction, its id, the requests sent
    and the callbacks called so far. *)
Definition the_txn (w : World) : Transaction := txn w.
Definition the_id (w : World) : value := id (txn w).
Definition the_requests (w : World) : list (Request * handler) :=
  requests (trace w).
Definition the_calls (w : World) : list (nat * list arg) := calls (trace w).

(** [preserves f m]: running [m] does not change the observation [f] of
    the world, whether [m] returns or throws. *)
Definition preserves {A B} (f : World -> B) (m : M A) : Prop :=
  forall w, f (fst (m w)) = f w.

End Coordinator.

End Datastore.

(** ** The entity codec of the design document *)

Module Entity.

(** Modelled from the spec: the Key of [lib/datastore/entity.js], which is
    not among the sources.  "An ordered sequence of path segments, each
    segment a (kind, identifier) pair where identifier is either a numeric
    id, a string name, or absent". *)
Inductive identifier : Type :=
| Id (n : Z)
| Name (s : string)
| Absent.

(** Modelled from the spec: a path segment of a Key, "a (kind: string,
    identifier) pair". *)
Record segment : Type := {
  kind : string;
  ident : identifier
}.

(** Modelled from the spec: the Key, "an ordered sequence of path
    segments". *)
Definition Key : Type := list segment.

(** Modelled from the spec: a path element of a KeyProto,
    "[{kind, id|name}]". *)
Record PathElement : Type := {
  pe_kind : string;
  pe_id : option Z;
  pe_name : option string
}.

(** Modelled from the spec: the KeyProto of [entity.js], "[path[]] of
    [{kind, id|name}]". *)
Record KeyProto : Type := {
  path : list PathElement
}.

(** Modelled from the spec: a segment is incomplete when its identifier
    is absent, "awaiting server-assigned id". *)
Definition segmentComplete (s : segment) : bool :=
  match ident s with
  | Absent => false
  | _ => true
  end.

(** Modelled from the spec: [isKeyComplete] of [entity.js], "true iff no
    segment's identifier is absent". *)
Definition isKeyComplete (key : Key) : bool :=
  forallb segmentComplete key.

(** Modelled from the spec: the number of incomplete segments of a key,
    which [keyToKeyProto] bounds by one. *)
Definition incompleteSegments (key : Key) : nat :=
  List.length (filter (fun s => negb (segmentComplete s)) key).

(** Modelled from the spec: the path element of a segment, "carrying
    kind and (id XOR name XOR neither, for the final incomplete
    segment)". *)
Definition toPathElement (s : segment) : PathElement :=
  match ident s with
  | Id n => {| pe_kind := kind s; pe_id := Some n; pe_name := None |}
  | Name a => {| pe_kind := kind s; pe_id := None; pe_name := Some a |}
  | Absent => {| pe_kind := kind s; pe_id := None; pe_name := None |}
  end.

(** Modelled from the spec: the segment of a path element; it is
    incomplete iff the element has neither id nor name. *)
Definition fromPathElement (e : PathElement) : segment :=
  match pe_id e, pe_name e with
  | Some n, _ => {| kind := pe_kind e; ident := Id n |}
  | None, Some a => {| kind := pe_kind e; ident := Name a |}
  | None, None => {| kind := pe_kind e; ident := Absent |}
  end.

(** Modelled from the spec: [keyToKeyProto] of [entity.js], which "fails
    with ValidationError if datasetId is empty or key has more than one
    incomplete segment" and "produces a proto with one path-element per key
    segment, each carrying kind and (id XOR name XOR neither)". *)
Definition keyToKeyProto (datasetId : string) (key : Key) : result KeyProto :=
  if datasetId =? "" then
    Throw (ValidationError "A dataset id is required")
  else if (1 <? incompleteSegments key)%nat then
    Throw (ValidationError "A key has at most one incomplete segment")
  else Ok {| path := map toPathElement key |}.

(** Modelled from the spec: [keyFromKeyProto] of [entity.js], the "inverse;
    always succeeds for well-formed protos". *)
Definition keyFromKeyProto (proto : KeyProto) : Key :=
  map fromPathElement (path proto).

Section Values.

(** Numbers are kept abstract: the codec only asks whether one has a
    fractional part. *)
Context {number : Type} (hasFraction : number -> bool).

(** Modelled from the spec: the property values of an Entity, "string,
    integer, boolean, double, timestamp, nested entity, or list thereof",
    and the values the codec has no type for ([LUndefined], and [LOther],
    a function for instance).  Integers and doubles are both numbers. *)
Inductive Value : Type :=
| LString (s : string)
| LNumber (n : number)
| LBoolean (b : bool)
| LTimestamp (t : number)
| LNested (properties : list (string * Value))
| LArray (items : list Value)
| LUndefined
| LOther (what : string).

(** Modelled from the spec: the Entity of the data model, "a mapping from
    property name to a typed value". *)
Definition Entity : Type := list (string * Value).

(** Modelled from the spec: the value of a property of an EntityProto,
    "[{*Value, multi?}]"; [NoValue] has none of the value fields. *)
Inductive ValueProto : Type :=
| stringValue (s : string)
| integerValue (n : number)
| doubleValue (n : number)
| booleanValue (b : bool)
| timestampValue (t : number)
| entityValue (property : list (string * ValueProto))
| listValue (values : list ValueProto) (* with multi: true *)
| NoValue.

(** Modelled from the spec: the EntityProto, "[property[]] of
    [{name, value}]". *)
Definition EntityProto : Type := list (string * ValueProto).

(** Modelled from the spec: the typing of a value by
    [entityToEntityProto], "string->stringValue, integer/number->integerValue
    or doubleValue depending on fractional part, boolean->booleanValue,
    nested mapping->entityValue, array->list of values with [multi: true]";
    it "fails with EncodingError on unsupported property value types".
    The list names no field for a timestamp, which the data model counts
    among the typed values: it gets a field of its own. *)
Fixpoint valueToProto (v : Value) : result ValueProto :=
  match v with
  | LString s => Ok (stringValue s)
  | LNumber n => Ok (if hasFraction n then doubleValue n else integerValue n)
  | LBoolean b => Ok (booleanValue b)
  | LTimestamp t => Ok (timestampValue t)
  | LNested properties =>
      match
        traverse (fun np => match np with
                            | (name, x) =>
                                match valueToProto x with
                                | Throw e => Throw e
                                | Ok p => Ok (name, p)
                                end
                            end) properties
      with
      | Throw e => Throw e
      | Ok ps => Ok (entityValue ps)
      end
  | LArray items =>
      match traverse valueToProto items with
      | Throw e => Throw e
      | Ok ps => Ok (listValue ps)
      end
  | LUndefined => Throw (EncodingError "Unsupported property value: undefined")
  | LOther what =>
      Throw (EncodingError ("Unsupported property value: " ++ what)%string)
  end.

(** Modelled from the spec: [entityToEntityProto] of [entity.js], which
    "maps each property to a typed [{propertyName, value}] pair". *)
Definition entityToEntityProto (entity : Entity) : result EntityProto :=
  traverse (fun np => match np with
                      | (name, x) =>
                          match valueToProto x with
                          | Throw e => Throw e
                          | Ok p => Ok (name, p)
                          end
                      end) entity.

(** Modelled from the spec: the "inverse typed extraction" of
    [entityFromEntityProto]; "unknown/absent value fields decode to
    [undefined]". *)
Fixpoint valueFromProto (p : ValueProto) : Value :=
  match p with
  | stringValue s => LString s
  | integerValue n => LNumber n
  | doubleValue n => LNumber n
  | booleanValue b => LBoolean b
  | timestampValue t => LTimestamp t
  | entityValue property =>
      LNested (map (fun np => match np with (name, q) => (name, valueFromProto q) end)
                  property)
  | listValue values => LArray (map valueFromProto values)
  | NoValue => LUndefined
  end.

(** Modelled from the spec: [entityFromEntityProto] of [entity.js]. *)
Definition entityFromEntityProto (proto : EntityProto) : Entity :=
  map (fun np => match np with (name, q) => (name, valueFromProto q) end) proto.

(** Modelled from the spec: the "supported value types", those the
    typing of [entityToEntityProto] names, at every depth. *)
Fixpoint supported (v : Value) : bool :=
  match v with
  | LString _ | LNumber _ | LBoolean _ | LTimestamp _ => true
  | LNested properties =>
      forallb (fun np => match np with (_, x) => supported x end) properties
  | LArray items => forallb supported items
  | LUndefined | LOther _ => false
  end.

(** Modelled from the spec: an entity "with only supported value
    types". *)
Definition supportedEntity (entity : Entity) : bool :=
  forallb (fun np => match np with (_, x) => supported x end) entity.

End Values.

End Entity.

(** ** The codec on the wire

    The protos of the design document as the JSON the coordinator puts in
    its request bodies, for numbers that are integers.  A dataset id that
    is not a string is no dataset id. *)

Module Wire.

Import Entity.

Definition pathElementToJson (e : PathElement) : value :=
  VObj ([("kind", VStr (pe_kind e))]
        ++ match pe_id e with Some n => [("id", VNum n)] | None => [] end
        ++ match pe_name e with Some a => [("name", VStr a)] | None => [] end).

Definition keyProtoToJson (proto : KeyProto) : value :=
  VObj [("path", VArr (map pathElementToJson (path proto)))].

Definition pathElementFromJson (v : value) : result PathElement :=
  match member v "kind" with
  | Throw e => Throw e
  | Ok (VStr k) =>
      Ok {| pe_kind := k;
            pe_id := match prop v "id" with VNum n => Some n | _ => None end;
            pe_name := match prop v "name" with VStr a => Some a | _ => None end |}
  | Ok _ => Throw (ValidationError "A path element has a kind")
  end.

Definition keyProtoFromJson (v : value) : result KeyProto :=
  match member v "path" with
  | Throw e => Throw e
  | Ok (VArr items) =>
      match traverse pathElementFromJson items with
      | Throw e => Throw e
      | Ok es => Ok {| path := es |}
      end
  | Ok _ => Throw (ValidationError "A key proto has a path")
  end.

Fixpoint valueProtoToJson (p : @ValueProto Z) : value :=
  match p with
  | stringValue s => VObj [("stringValue", VStr s)]
  | integerValue n => VObj [("integerValue", VNum n)]
  | doubleValue n => VObj [("doubleValue", VNum n)]
  | booleanValue b => VObj [("booleanValue", VBool b)]
  | timestampValue t => VObj [("timestampValue", VNum t)]
  | entityValue property =>
      VObj [("entityValue",
             VObj [("property",
                    VArr (map (fun np => match np with
                                         | (name, q) =>
                                             VObj [("name", VStr name);
                                                   ("value", valueProtoToJson q)]
                                         end) property))])]
  | listValue values =>
      VObj [("listValue", VArr (map valueProtoToJson values));
            ("multi", VBool true)]
  | NoValue => VObj []
  end.

Definition entityProtoToJson (proto : @EntityProto Z) : list (string * value) :=
  [("property",
    VArr (map (fun np => match np with
                         | (name, q) =>
                             VObj [("name", VStr name);
                                   ("value", valueProtoToJson q)]
                         end) proto))].

(** The nesting depth of a JSON value, which bounds the recursion of the
    decoder below. *)
Fixpoint depth (v : value) : nat :=
  match v with
  | VArr items => S (fold_right (fun x d => Nat.max (depth x) d) 0%nat items)
  | VObj fields =>
      S (fold_right (fun kx d => match kx with (_, x) => Nat.max (depth x) d end)
                    0%nat fields)
  | _ => 0%nat
  end.

Fixpoint valueProtoFromJson (d : nat) (v : value) : @ValueProto Z :=
  match d with
  | O => NoValue
  | S d' =>
      let property (e : value) :=
        match prop e "property" with
        | VArr items =>
            map (fun x => match prop x "name" with
                          | VStr name => (name, valueProtoFromJson d' (prop x "value"))
                          | _ => ("", valueProtoFromJson d' (prop x "value"))
                          end) items
        | _ => []
        end in
      match prop v "stringValue", prop v "integerValue", prop v "doubleValue",
            prop v "booleanValue", prop v "timestampValue",
            prop v "entityValue", prop v "listValue" with
      | VStr s, _, _, _, _, _, _ => stringValue s
      | _, VNum n, _, _, _, _, _ => integerValue n
      | _, _, VNum n, _, _, _, _ => doubleValue n
      | _, _, _, VBool b, _, _, _ => booleanValue b
      | _, _, _, _, VNum t, _, _ => timestampValue t
      | _, _, _, _, _, VObj fields, _ => entityValue (property (VObj fields))
      | _, _, _, _, _, _, VArr items =>
          listValue (map (valueProtoFromJson d') items)
      | _, _, _, _, _, _, _ => NoValue
      end
  end.

Definition entityProtoFromJson (v : value) : result (@EntityProto Z) :=
  match member v "property" with
  | Throw e => Throw e
  | Ok (VArr items) =>
      Ok (map (fun x => match prop x "name" with
                        | VStr name =>
                            (name, valueProtoFromJson (depth x) (prop x "value"))
                        | _ => ("", valueProtoFromJson (depth x) (prop x "value"))
                        end) items)
  | Ok _ => Ok []
  end.

(** No integer has a fractional part. *)
Definition hasFraction (n : Z) : bool := false.

#[global] Instance codec : EntityCodec Key (@Entity Z) := {
  keyToKeyProto d key :=
    match d with
    | VStr datasetId =>
        match Entity.keyToKeyProto datasetId key with
        | Throw e => Throw e
        | Ok proto => Ok (keyProtoToJson proto)
        end
    | _ => Throw (ValidationError "A dataset id is required")
    end;
  keyFromKeyProto v :=
    match keyProtoFromJson v with
    | Throw e => Throw e
    | Ok proto => Ok (Entity.keyFromKeyProto proto)
    end;
  entityToEntityProto entity :=
    match Entity.entityToEntityProto hasFraction entity with
    | Throw e => Throw e
    | Ok proto => Ok (entityProtoToJson proto)
    end;
  entityFromEntityProto v :=
    match entityProtoFromJson v with
    | Throw e => Throw e
    | Ok proto => Ok (Entity.entityFromEntityProto proto)
    end;
  isKeyComplete := Entity.isKeyComplete
}.

End Wire.

(** ** Sample data *)

Module Example.

Import Datastore.

(** A complete key, [Company/1/Employee/"alice"], and an incomplete one,
    [Company/1/Employee]. *)
Definition alice : Entity.Key :=
  [ {| Entity.kind := "Company"; Entity.ident := Entity.Id 1 |};
    {| Entity.kind := "Employee"; Entity.ident := Entity.Name "alice" |} ].

Definition newcomer : Entity.Key :=
  [ {| Entity.kind := "Company"; Entity.ident := Entity.Id 1 |};
    {| Entity.kind := "Employee"; Entity.ident := Entity.Absent |} ].

Definition aliceData : @Entity.Entity Z :=
  [ ("name", Entity.LString "Alice") ].

Definition newcomerData : @Entity.Entity Z :=
  [ ("name", Entity.LString "Bob"); ("age", Entity.LNumber 41%Z) ].

(** An entity with every kind of supported value. *)
Definition record : @Entity.Entity Z :=
  [ ("name", Entity.LString "Alice");
    ("age", Entity.LNumber 41%Z);
    ("active", Entity.LBoolean true);
    ("since", Entity.LTimestamp 1400000000%Z);
    ("tags", Entity.LArray [Entity.LString "a"; Entity.LNumber 2%Z]);
    ("address", Entity.LNested [("city", Entity.LString "Oslo")]) ].

(** The protos of the keys and of the entities as [putAll] sends them. *)
Definition aliceProto : value :=
  VObj [("path", VArr [VObj [("kind", VStr "Company"); ("id", VNum 1)];
                       VObj [("kind", VStr "Employee");
                             ("name", VStr "alice")]])].

Definition newcomerProto : value :=
  VObj [("path", VArr [VObj [("kind", VStr "Company"); ("id", VNum 1)];
                       VObj [("kind", VStr "Employee")]])].

Definition aliceEntity : value :=
  VObj [("property",
         VArr [VObj [("name", VStr "name");
                     ("value", VObj [("stringValue", VStr "Alice")])]]);
        ("key", aliceProto)].

Definition newcomerEntity : value :=
  VObj [("property",
         VArr [VObj [("name", VStr "name");
                     ("value", VObj [("stringValue", VStr "Bob")])];
               VObj [("name", VStr "age");
                     ("value", VObj [("integerValue", VNum 41)])]]);
        ("key", newcomerProto)].

Definition World : Type := @Datastore.World Entity.Key (@Entity.Entity Z).

(** A new transaction on dataset [s~abc]; the global object has neither
    [id] nor [keysProto]. *)
Definition fresh : World :=
  initial (newTransaction "s~abc")
          {| g_id := VUndefined; keysProto := VUndefined |}.

(** The same, where some script has set the global [id] to the dataset
    id. *)
Definition withGlobalId : World :=
  initial (newTransaction "s~abc")
          {| g_id := VStr "s~abc"; keysProto := VUndefined |}.

(** The transaction after a [begin] whose response body was the string
    ["tx-1"]. *)
Definition begun : World :=
  run [ABegin CbUndefined;
       AResponse (HBegin CbUndefined) VNull VUndefined (VStr "tx-1")] fresh.

(** The requests of the examples, to [commit] and [rollback]. *)
Definition post (meth : string) (body : value) : Request :=
  {| method := "POST";
     uri := ("https://www.googleapis.com/datastore/v1beta2/datasets/s~abc/"
             ++ meth)%string;
     json := body |}.

End Example.

(** ** The protocol as a whole *)

Module Protocol.

Import Datastore.


(** The options [makeReq] gives to [conn.req], for a transaction. *)
Definition makeReq_opts (t : Transaction) (meth : string) (req : value)
  : Request :=
  {| method := "POST";
     uri := (DATASTORE_BASE_URL ++ "/" ++ datasetId t ++ "/" ++ meth)%string;
     json := req |}.


Section Actions.

Context {Key Obj : Type}.

(** The arrival of a response, as opposed to a call of a method. *)
Definition isResponse (a : @action Key Obj) : bool :=
  match a with
  | AResponse _ _ _ _ => true
  | _ => false
  end.

(** The arrival of the response of a [commit] or [rollback] request. *)
Definition isOutcome (a : @action Key Obj) : bool :=
  match a with
  | AResponse (HCommit _) _ _ _ | AResponse (HRollback _) _ _ _ => true
  | _ => false
  end.

End Actions.

End Protocol.

(** ** The dataset *)

Module Facade.

Import Datastore.

(** [s.indexOf(pattern)]: where [pattern] first occurs in [s], or [-1].
    Only its sign is used, with patterns of two ASCII characters. *)
Definition indexOf (s pattern : string) : Z :=
  match String.index 0 pattern s with
  | Some n => Z.of_nat n
  | None => (-1)%Z
  end.

(** The [opts] of [new Dataset(opts)], as far as the dataset itself reads
    them: [projectId], a string when present.  ([email] and [pemFilePath]
    go to the connection.) *)
Record Options : Type := {
  projectId : option string
}.

(** The fields of a [Dataset] object. *)
Record Dataset : Type := {
  id : string;
  transaction : Transaction
}.

(** [new Dataset(opts)]; [opts] may be omitted. *)
Definition newDataset (opts : option Options) : Dataset :=
  let projectId :=
    match opts with
    | Some o => projectId o
    | None => None                       (* opts = opts || {} *)
    end in
  let id0 :=
    match projectId with
    | Some s => if truthy (VStr s) then s else ""
    | None => ""                         (* opts.projectId || '' *)
    end in
  let id1 :=
    if (indexOf id0 "s~" <? 0)%Z && (indexOf id0 "e~" <? 0)%Z
    then ("s~" ++ id0)%string
    else id0 in
  {| id := id1; transaction := newTransaction id1 |}.

Section Methods.

Context {Key Obj : Type} `{Codec : EntityCodec Key Obj}.

Local Abbreviation World := (@Datastore.World Key Obj).
Local Abbreviation M := (@Datastore.M Key Obj).

(** The function expressions that are handed to a method of
    [Transaction] as its callback: the one in [get] and the one in
    [runInTransaction], with the variables they close over. *)
Inductive closure : Type :=
| GetCallback (callback : callback)
| BeginCallback (fn : callback) (callback : callback).

(** To the method that is given one, such a function is a function like
    the caller's: it goes by a name. *)
Variable nameOf : closure -> nat.

(** An argument of a call such a function makes. *)
Inductive item : Type :=
| IVal (v : value)
| IKey (k : Key)
| IObj (o : Obj)
| ITransaction                 (* [t], the transaction of [runInTransaction] *)
| IDone (callback : callback). (* [done], which finalizes [t] *)

(** [f(args)] for a function of the caller: who is called, with what. *)
Definition call (f : callback) (args : list item) : result (nat * list item) :=
  match f with
  | CbUndefined => Throw (TypeError "undefined is not a function")
  | CbFun g => Ok (g, args)
  end.

(** [l[0]] *)
Definition first {A} (inj : A -> item) (l : list A) : item :=
  match l with
  | [] => IVal VUndefined
  | x :: _ => inj x
  end.

(** [Transaction.prototype.get] *)
Definition get (key : Key) (callback : callback) : M unit :=
  getAll [key] (CbFun (nameOf (GetCallback callback))).

(** The function [get] gives to [getAll], applied to [(err, keys, objs)];
    [keys] and [objs] are arrays, or [undefined] when [getAll] passes the
    error alone. *)
Definition get_callback (callback : callback) (err : value)
  (keys : option (list Key)) (objs : option (list Obj))
  : result (nat * list item) :=
  if truthy err then call callback [IVal err]
  else
    match objs with
    | None => Throw (TypeError "Cannot read property 'length' of undefined")
    | Some os =>
        if (Z.of_nat (List.length os) <? 0)%Z then call callback [IVal err]
        else
          match keys with
          | None => Throw (TypeError "Cannot read property '0' of undefined")
          | Some ks => call callback [IVal VNull; first IKey ks; first IObj os]
          end
    end.

(** The world of a transaction made by [new Transaction(conn, id)] on the
    connection of the world [w]: its requests join those of [w]. *)
Definition spawn (id : string) (w : World) : World :=
  {| txn := newTransaction id; global := global w; trace := trace w |}.

(** [Dataset.prototype.runInTransaction], in the world of the dataset;
    the world it leaves is that of the transaction [t] it makes. *)
Definition runInTransaction (this : Dataset) (fn callback : callback)
  : M unit :=
  fun w => begin (CbFun (nameOf (BeginCallback fn callback)))
                 (spawn (id this) w).

(** The function [runInTransaction] gives to [begin], applied to
    [(err, id)]; [begin] passes the error alone. *)
Definition begin_callback (fn callback : callback) (err : value)
  : result (nat * list item) :=
  if truthy err then call callback [IVal err]
  else call fn [ITransaction; IDone callback].

(** [done], in the world of [t]. *)
Definition done (callback : callback) : M unit :=
  finalize callback.

(** The requests [allocateIds] has sent, each with the callback of its
    caller, beside the world of the dataset's own transaction. *)
Record Allocating : Type := {
  world : World;
  allocations : list (Request * callback)
}.

(** The loop of [allocateIds]: [n] times the proto of the same key. *)
Fixpoint allocateLoop (n : nat) (d : value) (key : Key)
  (incompleteKeys : list value) : M (list value) :=
  match n with
  | O => ret incompleteKeys
  | S n' =>
      bind (call_keyToKeyProto d key)
           (fun p => allocateLoop n' d key (incompleteKeys ++ [p]))
  end.

(** [Dataset.prototype.allocateIds]; [n] is an integer, and the loop
    [for (i = 0; i < n; i++)] runs [n] times, not at all when [n <= 0]. *)
Definition allocateIds (this : Dataset) (incompleteKey : Key) (n : Z)
  (callback : callback) (s : Allocating) : Allocating * result unit :=
  if isKeyComplete incompleteKey then
    (s, Throw (Error "An incomplete key should be provided."))
  else
    match allocateLoop (Z.to_nat n) (VStr (id this)) incompleteKey []
                       (world s) with
    | (w, Throw e) =>
        ({| world := w; allocations := allocations s |}, Throw e)
    | (w, Ok incompleteKeys) =>
        ({| world := w;
            allocations :=
              allocations s ++
              [(Protocol.makeReq_opts (txn w) "allocateIds"
                  (VObj [("keys", VArr incompleteKeys)]), callback)] |},
         Ok tt)
    end.

(** The function [allocateIds] gives to [makeReq], applied to
    [(err, resp)]. *)
Definition allocateIds_callback (callback : callback) (err resp : value)
  : M unit :=
  if truthy err then invoke callback [AVal err]
  else
    bind (lift (member resp "keys"))
         (fun ks =>
            match ks with
            | VArr items =>
                bind (lift (traverse keyFromKeyProto items))
                     (fun keys => invoke callback [AVal VNull; AKeys keys])
            | VUndefined | VNull =>
                throw (TypeError "Cannot read property 'forEach' of undefined")
            | _ => throw (TypeError "resp.keys.forEach is not a function")
            end).

(** The arrival of the response of a request of [allocateIds]: what
    [makeReq] hands on goes to the function above. *)
Definition allocateIds_response (callback : callback) (err res body : value)
  : M unit :=
  allocateIds_callback callback (fst (delivered err body))
                       (snd (delivered err body)).

End Methods.

End Facade.

(** ** More sample data *)

Module Samples.

Import Datastore.
Import Example.

(** A key with two incomplete segments, which the codec refuses, and an
    entity with a value it has no type for. *)
Definition orphan : Entity.Key :=
  [ {| Entity.kind := "Company"; Entity.ident := Entity.Absent |};
    {| Entity.kind := "Employee"; Entity.ident := Entity.Absent |} ].

Definition oddData : @Entity.Entity Z :=
  [ ("name", Entity.LString "Eve"); ("callback", Entity.LOther "function") ].

(** The proto of Alice's entity as the codec makes it, before [putAll]
    adds the key. *)
Definition aliceFields : list (string * value) :=
  [("property",
    VArr [VObj [("name", VStr "name");
                ("value", VObj [("stringValue", VStr "Alice")])]])].

(** The body of a [lookup] response that found Alice. *)
Definition foundAlice : value :=
  VObj [("found", VArr [VObj [("entity", aliceEntity)]])].

(** The body of a [lookup] response that found nothing and says so. *)
Definition foundNothing : value :=
  VObj [("missing", VArr [VObj [("entity", VObj [("key", aliceProto)])]])].

(** The body of an [allocateIds] response with one key. *)
Definition allocated : value :=
  VObj [("keys", VArr [aliceProto])].

(** The body of a service error. *)
Definition unavailable : value :=
  VObj [("error", VObj [("code", VNum 503)])].

(** Names for the function expressions of [get] and [runInTransaction]. *)
Definition names (c : Facade.closure) : nat :=
  match c with
  | Facade.GetCallback _ => 100%nat
  | Facade.BeginCallback _ _ => 101%nat
  end.

(** The dataset of project [abc], and the world of its own transaction
    when the global object has no [id]. *)
Definition abc : Facade.Dataset :=
  Facade.newDataset (Some {| Facade.projectId := Some "abc" |}).

Definition abcWorld : World :=
  initial (Facade.transaction abc)
          {| g_id := VUndefined; keysProto := VUndefined |}.

Definition abcAllocating : @Facade.Allocating Entity.Key (@Entity.Entity Z) :=
  {| Facade.world := abcWorld; Facade.allocations := [] |}.

End Samples.

(** * Properties of the coordinator *)

Import Datastore.

Section Properties.

Context {Key Obj : Type} `{Codec : EntityCodec Key Obj}.

Local Abbreviation World := (@World Key Obj).
Local Abbreviation M := (@M Key Obj).
Local Abbreviation the_txn := (@the_txn Key Obj).
Local Abbreviation the_id := (@the_id Key Obj).
Local Abbreviation the_requests := (@the_requests Key Obj).
Local Abbreviation the_calls := (@the_calls Key Obj).

Implicit Types (w : World) (cb : callback) (h : handler).
Implicit Types (err res body resp : value).

(** ** Traces *)

Lemma requests_app (tr1 tr2 : list (@event Key Obj)) :
  requests (tr1 ++ tr2) = requests tr1 ++ requests tr2.
Proof.
  induction tr1 as [|e tr1 IH]; simpl; [reflexivity|].
  destruct e; simpl; rewrite IH; reflexivity.
Qed.

Lemma calls_app (tr1 tr2 : list (@event Key Obj)) :
  calls (tr1 ++ tr2) = calls tr1 ++ calls tr2.
Proof.
  induction tr1 as [|e tr1 IH]; simpl; [reflexivity|].
  destruct e; simpl; rewrite IH; reflexivity.
Qed.

Lemma codecCalls_app (tr1 tr2 : list (@event Key Obj)) :
  codecCalls (tr1 ++ tr2) = codecCalls tr1 ++ codecCalls tr2.
Proof.
  induction tr1 as [|e tr1 IH]; simpl; [reflexivity|].
  destruct e; simpl; rewrite IH; reflexivity.
Qed.

(** ** What a computation leaves alone *)


Lemma preserves_ret {A B} (f : World -> B) (a : A) : preserves f (ret a).
Proof. intros w; reflexivity. Qed.

Lemma preserves_throw {A B} (f : World -> B) (e : exn) :
  preserves f (@throw _ _ A e).
Proof. intros w; reflexivity. Qed.

Lemma preserves_lift {A B} (f : World -> B) (r : result A) :
  preserves f (lift r).
Proof. intros w; reflexivity. Qed.

Lemma preserves_bind {A B C} (f : World -> C) (m : M A) (k : A -> M B) :
  preserves f m -> (forall a, preserves f (k a)) -> preserves f (bind m k).
Proof.
  intros Hm Hk w. unfold bind.
  specialize (Hm w). destruct (m w) as [w' [a|e]]; simpl in *.
  - rewrite Hk. exact Hm.
  - exact Hm.
Qed.

Lemma preserves_forEach {A B} (f : World -> B) (l : list A) (g : A -> M unit) :
  (forall x, preserves f (g x)) -> preserves f (forEach l g).
Proof.
  intros Hg. induction l as [|x l IH]; simpl.
  - apply preserves_ret.
  - apply preserves_bind; [apply Hg | intros _; exact IH].
Qed.

Lemma preserves_this {B} (f : World -> B) : preserves f this.
Proof. intros w; reflexivity. Qed.

Lemma preserves_the_global {B} (f : World -> B) : preserves f the_global.
Proof. intros w; reflexivity. Qed.


Lemma keyToKeyProto_quiet d (k : Key) :
  preserves the_txn (call_keyToKeyProto d k) /\
  preserves the_requests (call_keyToKeyProto d k) /\
  preserves the_calls (call_keyToKeyProto d k).
Proof.
  repeat split; intros w; unfold call_keyToKeyProto, bind, emit, lift; simpl;
    unfold the_requests, the_calls; simpl;
    rewrite ?requests_app, ?calls_app; simpl; rewrite ?app_nil_r; reflexivity.
Qed.

Lemma push_keysProto_quiet p :
  preserves the_txn (push_keysProto p) /\
  preserves the_requests (push_keysProto p) /\
  preserves the_calls (push_keysProto p).
Proof.
  repeat split; intros w; unfold push_keysProto, bind, the_global; simpl;
    destruct (keysProto (global w)); reflexivity.
Qed.

Lemma encodeKey_quiet (k : Key) :
  preserves the_txn (encodeKey k) /\
  preserves the_requests (encodeKey k) /\
  preserves the_calls (encodeKey k).
Proof.
  unfold encodeKey.
  repeat split; apply preserves_bind; try apply preserves_the_global; intros g;
    (destruct (isNullish (keysProto g)); [apply preserves_throw|]);
    apply preserves_bind; try apply keyToKeyProto_quiet; intros p;
    apply push_keysProto_quiet.
Qed.

Lemma putLoop_quiet (keys : list Key) (objs : list Obj) :
  forall update insertAutoId,
    preserves the_txn (putLoop keys objs update insertAutoId) /\
    preserves the_requests (putLoop keys objs update insertAutoId) /\
    preserves the_calls (putLoop keys objs update insertAutoId).
Proof.
  revert objs. induction keys as [|k keys IH]; intros [|o objs] u i; simpl;
    try (repeat split; apply preserves_ret).
  assert (Hone : forall B (f : World -> B),
             (forall d k, preserves f (call_keyToKeyProto d k)) ->
             preserves f (putOne k o u i)).
  { intros B f Hf. unfold putOne.
    apply preserves_bind; [apply preserves_lift|]; intros e.
    apply preserves_bind; [apply preserves_this|]; intros t.
    apply preserves_bind; [apply Hf|]; intros kp.
    destruct (isKeyComplete k); apply preserves_ret. }
  repeat split; (apply preserves_bind;
    [apply Hone; intros; apply keyToKeyProto_quiet | intros b; apply IH]).
Qed.

Lemma decodeFound_quiet (found : list value) :
  forall (keys : list Key) (results : list Obj) {B} (f : World -> B),
    preserves f (decodeFound found keys results).
Proof.
  induction found as [|x found IH]; intros ks rs B f; simpl.
  - apply preserves_ret.
  - repeat (apply preserves_bind; [apply preserves_lift|]; intros ?).
    apply IH.
Qed.

(** ** The request sender *)

Lemma makeReq_callback_delivered h err res body :
  makeReq_callback (Key := Key) (Obj := Obj) h err res body =
  onResponse h (fst (delivered err body)) (snd (delivered err body)).
Proof.
  unfold makeReq_callback, delivered.
  destruct (truthy body && truthy (prop body "error")); reflexivity.
Qed.

(** C8, as amended: when the decoded body is truthy and its [error]
    property is truthy, the function given to [makeReq] is applied to
    [(body.error, null)], whatever the transport error, also none; in every
    other case it is applied to [(transportErr, body)]. *)
Theorem makeReq_service_error_first h err res body w :
  (truthy body = true -> truthy (prop body "error") = true ->
   makeReq_callback h err res body w = onResponse h (prop body "error") VNull w) /\
  (truthy body && truthy (prop body "error") = false ->
   makeReq_callback h err res body w = onResponse h err body w).
Proof.
  unfold makeReq_callback. split.
  - intros Hb He. rewrite Hb, He. reflexivity.
  - intros H. rewrite H. reflexivity.
Qed.

(** ** Commit, rollback and finalize *)

(** What the response of a [commit] or a [rollback] does: the [finalized]
    property becomes [!!err], and [err] goes to the callback as it is. *)
Lemma finalized_after_response (rollback_ : bool) f err res body w :
  let h := if rollback_ then HRollback (CbFun f) else HCommit (CbFun f) in
  let w' := fst (makeReq_callback h err res body w) in
  finalized (txn w') = VBool (truthy (fst (delivered err body))) /\
  the_calls w' = the_calls w ++ [(f, [AVal (fst (delivered err body))])].
Proof.
  intros h w'. subst h w'. rewrite makeReq_callback_delivered.
  destruct rollback_; simpl; unfold Datastore.the_calls; simpl;
    rewrite calls_app; auto.
Qed.

(** C1: the code at a successful response.  A new transaction on dataset
    [s~abc] commits (or rolls back); the one request gets the response
    [(null, res, {})]: the callback is called with [null], and [finalized]
    is [false]. *)
Theorem commit_success_leaves_finalized_false (g : Global) (f : nat) res :
  let w0 : World := initial (newTransaction "s~abc") g in
  let sent (meth : string) (h : handler) :=
    [({| method := "POST";
         uri := ("https://www.googleapis.com/datastore/v1beta2/datasets/s~abc/"
                 ++ meth)%string;
         json := VObj [("transaction", VNull)] |}, h)] in
  let w1 := fst (commit (CbFun f) w0) in
  let w2 := fst (makeReq_callback (HCommit (CbFun f)) VNull res (VObj []) w1) in
  let v1 := fst (rollback (CbFun f) w0) in
  let v2 := fst (makeReq_callback (HRollback (CbFun f)) VNull res (VObj []) v1) in
  (the_requests w1 = sent "commit" (HCommit (CbFun f)) /\
   the_calls w2 = [(f, [AVal VNull])] /\
   finalized (txn w2) = VBool false) /\
  (the_requests v1 = sent "rollback" (HRollback (CbFun f)) /\
   the_calls v2 = [(f, [AVal VNull])] /\
   finalized (txn v2) = VBool false).
Proof. repeat split. Qed.

(** [finalize] on a transaction whose [finalized] is truthy: the callback
    is called with no argument and nothing is sent. *)
Lemma finalize_when_finalized f w :
  truthy (finalized (txn w)) = true ->
  let w' := fst (finalize (CbFun f) w) in
  the_requests w' = the_requests w /\
  the_calls w' = the_calls w ++ [(f, [])].
Proof.
  intros H. unfold finalize, bind, this. simpl. rewrite H. simpl.
  unfold Datastore.the_requests, Datastore.the_calls. simpl.
  rewrite requests_app, calls_app. simpl. rewrite app_nil_r. auto.
Qed.

(** [finalize] on a transaction whose [finalized] is falsy is [commit]. *)
Lemma finalize_when_not_finalized cb w :
  truthy (finalized (txn w)) = false ->
  finalize cb w = commit cb w.
Proof.
  intros H. unfold finalize, bind, this. simpl. rewrite H. reflexivity.
Qed.

(** C2: the code at a second [finalize] after a successful commit.  A new
    transaction is finalized, the commit gets the response
    [(null, res, {})], and the transaction is finalized again with the
    callback [f2]: a second commit request is sent and [f2] is not
    called. *)
Theorem finalize_twice_commits_twice (g : Global) (f1 f2 : nat) res :
  let w0 : World := initial (newTransaction "s~abc") g in
  let req :=
    {| method := "POST";
       uri := "https://www.googleapis.com/datastore/v1beta2/datasets/s~abc/commit";
       json := VObj [("transaction", VNull)] |} in
  let w1 := fst (finalize (CbFun f1) w0) in
  let w2 := fst (makeReq_callback (HCommit (CbFun f1)) VNull res (VObj []) w1) in
  let w3 := fst (finalize (CbFun f2) w2) in
  the_requests w2 = [(req, HCommit (CbFun f1))] /\
  the_calls w2 = [(f1, [AVal VNull])] /\
  the_requests w3 = [(req, HCommit (CbFun f1)); (req, HCommit (CbFun f2))] /\
  the_calls w3 = [(f1, [AVal VNull])].
Proof. repeat split. Qed.

(** ** putAll *)

(** C6: when [keys] and [objs] differ in length, [putAll] throws to its
    caller (an [Error], of the kind the design document calls
    ValidationError) and leaves the world as it was: no request is sent and
    no callback is called. *)
Theorem putAll_length_mismatch_throws (keys : list Key) (objs : list Obj) cb w :
  List.length keys <> List.length objs ->
  putAll keys objs cb w =
  (w, Throw (Error "The length of the keys don't match the length of the objects")).
Proof.
  intros H. unfold putAll.
  apply Nat.eqb_neq in H. rewrite H. reflexivity.
Qed.

Lemma preserves_at {A B} (f : World -> B) (m : M A) w w' r :
  preserves f m -> m w = (w', r) -> f w' = f w.
Proof. intros H E. specialize (H w). rewrite E in H. exact H. Qed.

Lemma makeReq_sends meth req h w :
  makeReq meth req h w =
  ({| txn := txn w; global := global w;
      trace := trace w ++
               [Req {| method := "POST";
                       uri := (DATASTORE_BASE_URL ++ "/" ++ datasetId (txn w)
                               ++ "/" ++ meth)%string;
                       json := req |} h] |}, Ok tt).
Proof. reflexivity. Qed.

Lemma forEach_encodeKey_quiet (keys : list Key) :
  preserves the_txn (forEach keys encodeKey) /\
  preserves the_requests (forEach keys encodeKey) /\
  preserves the_calls (forEach keys encodeKey).
Proof.
  repeat split; apply preserves_forEach; intros k; apply encodeKey_quiet.
Qed.

(** The mode of a request body. *)
Local Abbreviation mode_of rh := (prop (json (fst rh)) "mode").

(** Whatever [delAll] sends is non-transactional. *)
Lemma delAll_mode (keys : list Key) cb w :
  exists new,
    the_requests (fst (delAll keys cb w)) = the_requests w ++ new /\
    Forall (fun rh => mode_of rh = VStr MODE_NON_TRANSACTIONAL) new.
Proof.
  unfold delAll, bind. simpl.
  match goal with |- context [forEach keys encodeKey ?w1] =>
    destruct (forEach keys encodeKey w1) as [w2 r] eqn:E end.
  apply (preserves_at the_requests) in E; [|apply forEach_encodeKey_quiet].
  change (the_requests w2 = the_requests w) in E.
  destruct r as [[]|e]; simpl.
  - eexists. unfold Datastore.the_requests in *. simpl. rewrite requests_app.
    simpl. rewrite E. split; [reflexivity|]. repeat constructor.
  - exists []. rewrite app_nil_r. split; [exact E | constructor].
Qed.

(** Whatever [putAll] sends is non-transactional. *)
Lemma putAll_mode (keys : list Key) (objs : list Obj) cb w :
  exists new,
    the_requests (fst (putAll keys objs cb w)) = the_requests w ++ new /\
    Forall (fun rh => mode_of rh = VStr MODE_NON_TRANSACTIONAL) new.
Proof.
  unfold putAll.
  destruct (negb (List.length keys =? List.length objs)%nat).
  - exists []. rewrite app_nil_r. split; [reflexivity | constructor].
  - unfold bind.
    destruct (putLoop keys objs [] [] w) as [w1 r] eqn:E.
    apply (preserves_at the_requests) in E; [|apply putLoop_quiet].
    destruct r as [b|e]; simpl.
    + eexists. unfold Datastore.the_requests in *. simpl. rewrite requests_app.
      simpl. rewrite E. split; [reflexivity|]. repeat constructor.
    + exists []. rewrite app_nil_r. split; [exact E | constructor].
Qed.

(** C4: every request [putAll] or [delAll] sends has mode
    [NON_TRANSACTIONAL], in every state of the transaction; and when
    [k1Proto] is the proto of [k1], [delAll([k1], cb)] returns having sent
    exactly one request, to [commit], whose body is
    [{mode: 'NON_TRANSACTIONAL', mutation: {delete: [k1Proto]}}], and the
    response of that request calls [cb] with one argument, the error. *)
Theorem mutations_are_non_transactional
  w (keys : list Key) (objs : list Obj) cb (k1 : Key) (k1Proto : value)
  (f : nat) err res body w2 :
  (exists new,
     the_requests (fst (putAll keys objs cb w)) = the_requests w ++ new /\
     Forall (fun rh => mode_of rh = VStr "NON_TRANSACTIONAL") new) /\
  (exists new,
     the_requests (fst (delAll keys cb w)) = the_requests w ++ new /\
     Forall (fun rh => mode_of rh = VStr "NON_TRANSACTIONAL") new) /\
  (keyToKeyProto (g_id (global w)) k1 = Ok k1Proto ->
   snd (delAll [k1] (CbFun f) w) = Ok tt /\
   the_requests (fst (delAll [k1] (CbFun f) w)) =
   the_requests w ++
   [({| method := "POST";
        uri := (DATASTORE_BASE_URL ++ "/" ++ datasetId (txn w) ++ "/commit")%string;
        json := VObj [("mode", VStr "NON_TRANSACTIONAL");
                      ("mutation", VObj [("delete", VArr [k1Proto])])] |},
     HDelAll (CbFun f))] /\
   the_calls (fst (makeReq_callback (HDelAll (CbFun f)) err res body w2)) =
   the_calls w2 ++ [(f, [AVal (fst (delivered err body))])]).
Proof.
  split; [apply putAll_mode | split; [apply delAll_mode|]].
  intros Hk.
  unfold delAll, reset_keysProto, forEach, encodeKey, call_keyToKeyProto,
    push_keysProto, bind, the_global, set_global, emit, lift. simpl.
  rewrite Hk. simpl. split; [reflexivity|]. split.
  - unfold Datastore.the_requests. simpl.
    rewrite !requests_app. simpl. rewrite app_nil_r. reflexivity.
  - rewrite makeReq_callback_delivered. unfold Datastore.the_calls. simpl.
    rewrite calls_app. reflexivity.
Qed.

(** The entity [putAll] sends for [objs[i]] under [keys[i]], when the
    dataset-id argument of the key codec is [d]: the proto of the object,
    with the proto of the key as its [key] property. *)
Local Abbreviation encodes d :=
  (fun (ko : Key * Obj) (e : value) =>
     exists fields kp,
       entityToEntityProto (snd ko) = Ok fields /\
       keyToKeyProto d (fst ko) = Ok kp /\
       e = VObj (assign "key" kp fields)).

(** The entities of the keys whose completeness is [c], in order. *)
Local Abbreviation bucket c keys es :=
  (map snd (filter (fun ke : Key * value => Bool.eqb (isKeyComplete (fst ke)) c)
                   (combine keys es))).

Lemma putLoop_buckets (keys : list Key) :
  forall (objs : list Obj) (es update insertAutoId : list value) w,
    Forall2 (encodes (id (txn w))) (combine keys objs) es ->
    List.length keys = List.length objs ->
    snd (putLoop keys objs update insertAutoId w) =
    Ok (update ++ bucket true keys es, insertAutoId ++ bucket false keys es).
Proof.
  induction keys as [|k keys IH]; intros [|o objs] es u i w HF HL;
    simpl in HL; try discriminate.
  - simpl. rewrite !app_nil_r. reflexivity.
  - simpl in HF. inversion HF as [|ko e kos es' He HF' E1 E2]; subst.
    destruct He as (fields & kp & Hf & Hk & ->). simpl in Hf, Hk.
    cbn [putLoop]. unfold bind at 1.
    unfold putOne, bind, lift, this, call_keyToKeyProto, emit. simpl.
    rewrite Hf, Hk.
    destruct (isKeyComplete k) eqn:Hc; simpl;
      (erewrite IH; [ | exact HF' | congruence ]);
      rewrite <- !app_assoc; reflexivity.
Qed.

(** C7: for [keys] and [objs] of equal length whose entities encode to
    [es], [putAll] returns having sent exactly one request, to [commit],
    with mode [NON_TRANSACTIONAL], the entities of the complete keys under
    [update] and those of the incomplete keys under [insertAutoId]; when
    the response arrives the callback gets the pair [makeReq] hands on as
    it is, which is the transport error and the body itself unless the body
    has a truthy [error]. *)
Theorem putAll_partitions_and_passes_response
  (keys : list Key) (objs : list Obj) (es : list value) (f : nat) w
  err res body w2 :
  List.length keys = List.length objs ->
  Forall2 (encodes (id (txn w))) (combine keys objs) es ->
  snd (putAll keys objs (CbFun f) w) = Ok tt /\
  the_requests (fst (putAll keys objs (CbFun f) w)) =
  the_requests w ++
  [({| method := "POST";
       uri := (DATASTORE_BASE_URL ++ "/" ++ datasetId (txn w) ++ "/commit")%string;
       json := VObj [("mode", VStr "NON_TRANSACTIONAL");
                     ("mutation",
                      VObj [("update", VArr (bucket true keys es));
                            ("insertAutoId", VArr (bucket false keys es))])] |},
    HPutAll (CbFun f))] /\
  the_calls (fst (makeReq_callback (HPutAll (CbFun f)) err res body w2)) =
  the_calls w2 ++ [(f, [AVal (fst (delivered err body));
                        AVal (snd (delivered err body))])] /\
  (truthy body && truthy (prop body "error") = false ->
   delivered err body = (err, body)).
Proof.
  intros HL HF.
  assert (Hloop := putLoop_buckets keys objs es [] [] w HF HL).
  simpl in Hloop.
  unfold putAll. rewrite HL, Nat.eqb_refl. simpl. unfold bind.
  destruct (putLoop keys objs [] [] w) as [w1 r] eqn:E.
  assert (Ht : the_txn w1 = the_txn w)
    by (apply (preserves_at _ _ _ _ _ (proj1 (putLoop_quiet keys objs [] [])) E)).
  assert (Hr : the_requests w1 = the_requests w)
    by (apply (preserves_at _ _ _ _ _
                 (proj1 (proj2 (putLoop_quiet keys objs [] []))) E)).
  simpl in Hloop. subst r. rewrite makeReq_sends. simpl.
  unfold Datastore.the_txn, Datastore.the_requests in *.
  split; [reflexivity|]. split; [|split].
  - simpl. rewrite requests_app, Hr, Ht. reflexivity.
  - rewrite makeReq_callback_delivered. unfold Datastore.the_calls. simpl.
    rewrite calls_app. reflexivity.
  - intros H. unfold delivered. rewrite H. reflexivity.
Qed.

(** ** Which dataset id the key codec is given *)

Local Abbreviation the_codecCalls := (fun w : World => codecCalls (trace w)).
Local Abbreviation the_global_id := (fun w : World => g_id (global w)).

Lemma encodeKey_global_id (k : Key) : preserves the_global_id (encodeKey k).
Proof.
  intros w. unfold encodeKey, call_keyToKeyProto, push_keysProto, bind,
    the_global, emit, lift. simpl.
  destruct (isNullish (keysProto (global w))); [reflexivity|]. simpl.
  destruct (keyToKeyProto (g_id (global w)) k); simpl; [|reflexivity].
  destruct (keysProto (global w)); reflexivity.
Qed.

(** In [getAll] and [delAll] every call of [keyToKeyProto] gets the [id]
    property of the global object. *)
Lemma forEach_encodeKey_codecCalls (keys : list Key) :
  forall w,
    exists new,
      the_codecCalls (fst (forEach keys encodeKey w)) = the_codecCalls w ++ new /\
      Forall (fun c => fst c = g_id (global w)) new.
Proof.
  induction keys as [|k keys IH]; intros w; simpl.
  - exists []. rewrite app_nil_r. split; [reflexivity | constructor].
  - unfold bind. destruct (encodeKey k w) as [w1 r] eqn:E.
    assert (Hg : the_global_id w1 = the_global_id w)
      by (apply (preserves_at _ _ _ _ _ (encodeKey_global_id k) E)).
    assert (Hc : exists new, the_codecCalls w1 = the_codecCalls w ++ new /\
                             Forall (fun c => fst c = g_id (global w)) new).
    { pose proof (f_equal fst E) as E1. simpl in E1. subst w1.
      unfold encodeKey, call_keyToKeyProto, push_keysProto, bind,
        the_global, emit, lift. simpl.
      destruct (isNullish (keysProto (global w))); simpl.
      - exists []. rewrite app_nil_r. split; [reflexivity | constructor].
      - exists [(g_id (global w), k)]. split; [|repeat constructor].
        destruct (keyToKeyProto (g_id (global w)) k); simpl;
          [destruct (keysProto (global w)); simpl|];
          rewrite codecCalls_app; reflexivity. }
    destruct Hc as (new1 & Hc & HF1).
    destruct r as [[]|e]; simpl.
    + destruct (IH w1) as (new & Hn & HF).
      exists (new1 ++ new). rewrite Hn, Hc, <- app_assoc.
      split; [reflexivity|]. apply Forall_app. split; [exact HF1|].
      simpl in Hg. rewrite <- Hg. exact HF.
    + exists new1. split; [exact Hc | exact HF1].
Qed.

(** In [putAll] every call of [keyToKeyProto] gets the [id] of the
    transaction. *)
Lemma putLoop_codecCalls (keys : list Key) :
  forall (objs : list Obj) update insertAutoId w,
    exists new,
      the_codecCalls (fst (putLoop keys objs update insertAutoId w)) =
      the_codecCalls w ++ new /\
      Forall (fun c => fst c = id (txn w)) new.
Proof.
  induction keys as [|k keys IH]; intros [|o objs] u i w; simpl;
    try (exists []; rewrite app_nil_r; split; [reflexivity | constructor]).
  unfold bind. destruct (putOne k o u i w) as [w1 r] eqn:E.
  pose proof (f_equal fst E) as E1. simpl in E1.
  assert (Ht : the_txn w1 = the_txn w).
  { subst w1.
    unfold putOne, call_keyToKeyProto, bind, this, emit, lift. simpl.
    destruct (entityToEntityProto o); simpl; [|reflexivity].
    destruct (keyToKeyProto (id (txn w)) k); simpl; [|reflexivity].
    destruct (isKeyComplete k); reflexivity. }
  assert (Hc : exists new, the_codecCalls w1 = the_codecCalls w ++ new /\
                           Forall (fun c => fst c = id (txn w)) new).
  { subst w1.
    unfold putOne, call_keyToKeyProto, bind, this, emit, lift. simpl.
    destruct (entityToEntityProto o); simpl.
    - exists [(id (txn w), k)].
      split; [|repeat constructor].
      destruct (keyToKeyProto (id (txn w)) k); simpl;
        [destruct (isKeyComplete k); simpl|]; rewrite codecCalls_app; reflexivity.
    - exists []. rewrite app_nil_r. split; [reflexivity | constructor]. }
  destruct Hc as (new1 & Hc & HF1).
  destruct r as [b|e]; simpl.
  - destruct (IH objs (fst b) (snd b) w1) as (new & Hn & HF).
    exists (new1 ++ new). rewrite Hn, Hc, <- app_assoc.
    split; [reflexivity|]. apply Forall_app. split; [exact HF1|].
    unfold Datastore.the_txn in Ht. rewrite <- Ht. exact HF.
  - exists new1. split; [exact Hc | exact HF1].
Qed.

(** C3: the code on a new transaction of dataset [s~abc], where the
    global object has no [id].  [getAll([k])] and [delAll([k])] call
    [keyToKeyProto(undefined, k)]; [putAll([k], [o])] calls
    [keyToKeyProto(null, k)] (once [o] is encoded): none passes the
    dataset id. *)
Theorem keyToKeyProto_not_given_datasetId (k : Key) (o : Obj) cb keysProto0 :
  let w0 : World :=
    initial (newTransaction "s~abc")
            {| g_id := VUndefined; keysProto := keysProto0 |} in
  datasetId (txn w0) = "s~abc" /\
  codecCalls (trace (fst (getAll [k] cb w0))) = [(VUndefined, k)] /\
  codecCalls (trace (fst (delAll [k] cb w0))) = [(VUndefined, k)] /\
  codecCalls (trace (fst (putAll [k] [o] cb w0))) =
  match entityToEntityProto o with
  | Ok _ => [(VNull, k)]
  | Throw _ => []
  end.
Proof.
  simpl. split; [reflexivity|].
  unfold getAll, delAll, putAll, putLoop, putOne, reset_keysProto, forEach,
    encodeKey, call_keyToKeyProto, push_keysProto, makeReq, conn_req, bind,
    this, the_global, set_global, emit, lift, ret. simpl.
  repeat split.
  - destruct (keyToKeyProto VUndefined k); reflexivity.
  - destruct (keyToKeyProto VUndefined k); reflexivity.
  - destruct (entityToEntityProto o); [|reflexivity]. simpl.
    destruct (keyToKeyProto VNull k); [|reflexivity]. simpl.
    destruct (isKeyComplete k); reflexivity.
Qed.

(** ** Callbacks that were not given *)

(** The response function of [putAll] calls [callback] whatever it is:
    without one, every response ends in a [TypeError]. *)
Lemma putAll_response_without_callback err res body w :
  snd (makeReq_callback (HPutAll CbUndefined) err res body w) =
  Throw (TypeError "undefined is not a function").
Proof.
  rewrite makeReq_callback_delivered. reflexivity.
Qed.

(** The response functions of [begin], [rollback], [commit] and [delAll]
    test [callback] first: without one they return, and call nothing. *)
Lemma guarded_response_without_callback h err res body w :
  In h [HBegin CbUndefined; HRollback CbUndefined; HCommit CbUndefined;
        HDelAll CbUndefined] ->
  snd (makeReq_callback h err res body w) = Ok tt /\
  the_calls (fst (makeReq_callback h err res body w)) = the_calls w.
Proof.
  intros Hin. rewrite makeReq_callback_delivered.
  simpl in Hin.
  destruct Hin as [<-|[<-|[<-|[<-|[]]]]]; simpl;
    try (destruct (truthy (fst (delivered err body))); simpl); auto.
Qed.

(** C10: the code at an error response of a [getAll] that was given no
    callback.  [getAll([])] on a new transaction sends its [lookup]
    request; the response [('ECONNRESET', undefined, undefined)] ends in a
    [TypeError], since the error branch calls [callback] without testing
    it. *)
Theorem getAll_error_without_callback_throws (g : Global) :
  let w0 : World := initial (newTransaction "s~abc") g in
  let w1 := fst (getAll [] CbUndefined w0) in
  the_requests w1 =
  [({| method := "POST";
       uri := "https://www.googleapis.com/datastore/v1beta2/datasets/s~abc/lookup";
       json := VObj [("keys", VArr [])] |}, HGetAll CbUndefined)] /\
  snd (makeReq_callback (HGetAll CbUndefined)
         (VStr "ECONNRESET") VUndefined VUndefined w1) =
  Throw (TypeError "undefined is not a function").
Proof. split; reflexivity. Qed.

(** ** The id of a transaction *)

Lemma makeReq_keeps_id meth req h : preserves the_id (makeReq meth req h).
Proof. intros w; reflexivity. Qed.

Lemma txn_keeps_id {A} (m : M A) : preserves the_txn m -> preserves the_id m.
Proof.
  intros H w. specialize (H w). unfold Datastore.the_id, Datastore.the_txn in *.
  rewrite H. reflexivity.
Qed.

(** Only the response of a [beginTransaction] request assigns [id]. *)
Lemma perform_keeps_id (a : action) :
  isBeginResponse a = false -> preserves the_id (perform a).
Proof.
  destruct a as [cb|cb|cb|cb|keys cb|keys objs cb|keys cb|h err res body];
    simpl; intros Hb.
  - apply makeReq_keeps_id.
  - intros w; reflexivity.
  - intros w; reflexivity.
  - intros w. unfold finalize, bind, this. simpl.
    destruct (truthy (finalized (txn w))); simpl; [destruct cb|]; reflexivity.
  - unfold getAll.
    apply preserves_bind; [intros w; reflexivity|]; intros _.
    apply preserves_bind;
      [apply txn_keeps_id, forEach_encodeKey_quiet|]; intros _.
    apply preserves_bind; [apply preserves_the_global|]; intros g.
    apply makeReq_keeps_id.
  - unfold putAll.
    destruct (negb (List.length keys =? List.length objs)%nat);
      [apply preserves_throw|].
    apply preserves_bind; [apply txn_keeps_id, putLoop_quiet|]; intros b.
    apply makeReq_keeps_id.
  - unfold delAll.
    apply preserves_bind; [intros w; reflexivity|]; intros _.
    apply preserves_bind;
      [apply txn_keeps_id, forEach_encodeKey_quiet|]; intros _.
    apply preserves_bind; [apply preserves_the_global|]; intros g.
    apply makeReq_keeps_id.
  - rewrite makeReq_callback_delivered.
    generalize (fst (delivered err body)), (snd (delivered err body)).
    intros e r.
    destruct h as [cb|cb|cb|cb|cb|cb]; try discriminate; simpl.
    + intros w. destruct cb; reflexivity.
    + intros w. destruct cb; reflexivity.
    + destruct (truthy e); [intros w; destruct cb; reflexivity|].
      apply preserves_bind; [apply preserves_lift|]; intros found.
      destruct found; try apply preserves_throw.
      apply preserves_bind; [apply decodeFound_quiet|]; intros b.
      intros w; destruct cb; reflexivity.
    + intros w. destruct cb; reflexivity.
    + intros w. destruct cb; reflexivity.
Qed.

Lemma run_keeps_id (acts : list action) :
  forall w, existsb isBeginResponse acts = false ->
            the_id (run acts w) = the_id w.
Proof.
  induction acts as [|a acts IH]; intros w H; simpl in *; [reflexivity|].
  apply orb_false_iff in H. destruct H as [Ha Hs].
  rewrite IH by exact Hs. apply perform_keeps_id. exact Ha.
Qed.

(** C9: [begin] sends one [beginTransaction] request with body [null].
    When its response is a success (the error [makeReq] hands on is falsy),
    the [id] of the transaction is the whole body of the response, and
    after any further actions other than a response to [begin], a [commit]
    or a [rollback] sends [{transaction: body}].  When the response is a
    failure, [id] is what it was: [null] stays [null]. *)
Theorem begin_id_is_the_response_body cb cb' err res body w (acts : list action) :
  let w1 := fst (makeReq_callback (HBegin cb) err res body w) in
  let w2 := run acts w1 in
  let sent (meth : string) (h : handler) :=
    [({| method := "POST";
         uri := (DATASTORE_BASE_URL ++ "/" ++ datasetId (txn w2) ++ "/"
                 ++ meth)%string;
         json := VObj [("transaction", body)] |}, h)] in
  the_requests (fst (begin cb w)) =
  the_requests w ++
  [({| method := "POST";
       uri := (DATASTORE_BASE_URL ++ "/" ++ datasetId (txn w)
               ++ "/beginTransaction")%string;
       json := VNull |}, HBegin cb)] /\
  (truthy (fst (delivered err body)) = false ->
   id (txn w1) = body /\
   (existsb isBeginResponse acts = false ->
    the_requests (fst (commit cb' w2)) =
    the_requests w2 ++ sent "commit" (HCommit cb') /\
    the_requests (fst (rollback cb' w2)) =
    the_requests w2 ++ sent "rollback" (HRollback cb'))) /\
  (truthy (fst (delivered err body)) = true ->
   id (txn w1) = id (txn w) /\ (id (txn w) = VNull -> id (txn w1) = VNull)).
Proof.
  intros w1 w2 sent.
  assert (Hid : id (txn w1) =
                if truthy (fst (delivered err body)) then id (txn w)
                else snd (delivered err body)).
  { subst w1. rewrite makeReq_callback_delivered. simpl.
    unfold bind. destruct (truthy (fst (delivered err body))); simpl;
      destruct cb; reflexivity. }
  split; [|split].
  - unfold Datastore.the_requests. simpl. rewrite requests_app. reflexivity.
  - intros Hs. rewrite Hs in Hid.
    assert (Hb : snd (delivered err body) = body).
    { unfold delivered in *.
      destruct (truthy body && truthy (prop body "error")) eqn:Ht;
        [|reflexivity].
      simpl in Hs. apply andb_true_iff in Ht. destruct Ht; congruence. }
    rewrite Hb in Hid. split; [exact Hid|].
    intros Hacts.
    assert (H2 : id (txn w2) = body).
    { rewrite <- Hid. apply (run_keeps_id acts w1 Hacts). }
    subst sent. unfold commit, rollback, bind, this. simpl.
    unfold Datastore.the_requests. simpl.
    rewrite !requests_app, H2. simpl. split; reflexivity.
  - intros Hf. rewrite Hf in Hid. split; [exact Hid|].
    intros Hn. rewrite Hid. exact Hn.
Qed.

End Properties.

(** * Properties of the entity codec *)

Section CodecProperties.

Import Entity.

Context {number : Type} (hasFraction : number -> bool).

Local Abbreviation Value := (@Value number).
Local Abbreviation Entity := (@Entity.Entity number).

(** When every item is encoded and decodes to itself, so is the array. *)
Lemma traverse_roundtrip {A B} (f : A -> result B) (g : B -> A)
  (ok : A -> bool) (l : list A) :
  Forall (fun a => ok a = true -> exists b, f a = Ok b /\ g b = a) l ->
  forallb ok l = true ->
  exists bs, traverse f l = Ok bs /\ map g bs = l.
Proof.
  induction 1 as [|a l Ha _ IH]; simpl; intros Hok.
  - exists []. split; reflexivity.
  - apply andb_true_iff in Hok. destruct Hok as [Hok Hl].
    destruct (Ha Hok) as (b & Hb & Hg).
    destruct (IH Hl) as (bs & Hbs & Hgs).
    exists (b :: bs). rewrite Hb, Hbs. simpl. rewrite Hg, Hgs.
    split; reflexivity.
Qed.

(** Induction on values, with the hypothesis for every property of a
    nested entity and every item of an array. *)
Lemma Value_nested_ind (P : Value -> Prop) :
  (forall s, P (LString s)) ->
  (forall n, P (LNumber n)) ->
  (forall b, P (LBoolean b)) ->
  (forall t, P (LTimestamp t)) ->
  (forall properties,
      Forall (fun np => P (snd np)) properties -> P (LNested properties)) ->
  (forall items, Forall P items -> P (LArray items)) ->
  P LUndefined ->
  (forall what, P (LOther what)) ->
  forall v, P v.
Proof.
  intros HS HN HB HT HE HA HU HO.
  fix IH 1. intros [s|n|b|t|properties|items| |what].
  - apply HS.
  - apply HN.
  - apply HB.
  - apply HT.
  - apply HE. induction properties as [|[name x] rest IHrest];
      constructor; [apply IH | exact IHrest].
  - apply HA. induction items as [|x rest IHrest];
      constructor; [apply IH | exact IHrest].
  - apply HU.
  - apply HO.
Qed.

(** The encoding of a property, and its decoding. *)
Local Abbreviation propertyToProto :=
  (fun np : string * Value =>
     match np with
     | (name, x) =>
         match valueToProto hasFraction x with
         | Throw e => Throw e
         | Ok p => Ok (name, p)
         end
     end).
Local Abbreviation propertyFromProto :=
  (fun np : string * ValueProto =>
     match np with (name, q) => (name, valueFromProto q) end).

Lemma property_roundtrip (np : string * Value) :
  (supported (snd np) = true ->
   exists p, valueToProto hasFraction (snd np) = Ok p /\
             valueFromProto p = snd np) ->
  (let (_, x) := np in supported x) = true ->
  exists b, propertyToProto np = Ok b /\ propertyFromProto b = np.
Proof.
  destruct np as [name x]. simpl. intros H Hs.
  destruct (H Hs) as (p & Hp & Hd). exists (name, p).
  rewrite Hp, Hd. split; reflexivity.
Qed.

(** A supported value is encoded, and decoding gives it back. *)
Lemma value_roundtrip (v : Value) :
  supported v = true ->
  exists p, valueToProto hasFraction v = Ok p /\ valueFromProto p = v.
Proof.
  induction v as [s|n|b|t|properties IH|items IH| |what] using Value_nested_ind;
    simpl; intros Hs; try discriminate.
  - eexists; split; reflexivity.
  - destruct (hasFraction n); eexists; split; reflexivity.
  - eexists; split; reflexivity.
  - eexists; split; reflexivity.
  - destruct (traverse_roundtrip propertyToProto propertyFromProto
                (fun np => let (_, x) := np in supported x) properties)
      as (ps & Hps & Hds).
    + eapply Forall_impl; [|exact IH]. intros np. apply property_roundtrip.
    + exact Hs.
    + rewrite Hps. eexists; split; [reflexivity|]. simpl. rewrite Hds.
      reflexivity.
  - destruct (traverse_roundtrip (valueToProto hasFraction) valueFromProto
                supported items IH Hs) as (ps & Hps & Hds).
    rewrite Hps. eexists; split; [reflexivity|]. simpl. rewrite Hds.
    reflexivity.
Qed.

Lemma key_roundtrip (k : Key) :
  map fromPathElement (map toPathElement k) = k.
Proof.
  induction k as [|[kd [n|a|]] k IH]; simpl; rewrite ?IH; reflexivity.
Qed.

Lemma complete_has_no_incomplete_segment (k : Key) :
  isKeyComplete k = true -> incompleteSegments k = 0%nat.
Proof.
  unfold isKeyComplete, incompleteSegments.
  induction k as [|s k IH]; simpl; [reflexivity|].
  intros H. apply andb_true_iff in H. destruct H as [Hs Hk].
  rewrite Hs. simpl. apply IH. exact Hk.
Qed.

(** C5: a complete key, encoded under a non-empty dataset id, decodes to
    itself; an entity whose property values all have supported types is
    encoded, and decodes to itself, names and values. *)
Theorem codec_roundtrip :
  (forall (d : string) (k : Key),
      d <> "" -> isKeyComplete k = true ->
      exists proto, keyToKeyProto d k = Ok proto /\ keyFromKeyProto proto = k) /\
  (forall e : Entity,
      supportedEntity e = true ->
      exists proto, entityToEntityProto hasFraction e = Ok proto /\
                    entityFromEntityProto proto = e).
Proof.
  split.
  - intros d k Hd Hk. unfold keyToKeyProto.
    apply String.eqb_neq in Hd. rewrite Hd.
    rewrite (complete_has_no_incomplete_segment k Hk). simpl.
    eexists; split; [reflexivity|].
    unfold keyFromKeyProto. simpl. apply key_roundtrip.
  - intros e He. unfold entityToEntityProto, entityFromEntityProto.
    apply (traverse_roundtrip propertyToProto propertyFromProto
             (fun np => let (_, x) := np in supported x)); [|exact He].
    apply Forall_forall. intros np _. apply property_roundtrip.
    apply value_roundtrip.
Qed.

End CodecProperties.

(** * The properties on sample data *)

Section Examples.

Import Example.

Local Abbreviation Record := (@Entity.Entity Z).

(** C8 as stated fails: the body [{error: ''}] carries an [error] field,
    and with no transport error [putAll]'s callback, which gets what
    [makeReq] hands on, is called with [(null, body)], not with
    [(body.error, null)]. *)
Lemma makeReq_falsy_error_field :
  let body := VObj [("error", VStr "")] in
  hasOwn body "error" = true /\
  the_calls (fst (makeReq_callback (HPutAll (CbFun 0)) VNull VUndefined body fresh))
  = [(0%nat, [AVal VNull; AVal body])] /\
  the_calls (fst (makeReq_callback (HPutAll (CbFun 0)) VNull VUndefined body fresh))
  <> [(0%nat, [AVal (prop body "error"); AVal VNull])].
Proof.
  simpl. repeat split. intros H. discriminate H.
Qed.

(** C8 as amended, on a body with a service error and on one without. *)
Lemma makeReq_service_error_first_witness :
  let body := VObj [("error", VObj [("code", VNum 503)])] in
  let quiet := VObj [("found", VArr [])] in
  (truthy body = true /\ truthy (prop body "error") = true /\
   makeReq_callback (HPutAll (CbFun 0)) VNull VUndefined body fresh =
   onResponse (HPutAll (CbFun 0)) (VObj [("code", VNum 503)]) VNull fresh) /\
  (truthy quiet && truthy (prop quiet "error") = false /\
   makeReq_callback (HPutAll (CbFun 0)) (VStr "ECONNRESET") VUndefined quiet fresh =
   onResponse (HPutAll (CbFun 0)) (VStr "ECONNRESET") quiet fresh).
Proof.
  intros body quiet. split.
  - split; [reflexivity|]. split; [reflexivity|].
    apply (proj1 (makeReq_service_error_first
                    (HPutAll (CbFun 0)) VNull VUndefined body fresh));
      reflexivity.
  - split; [reflexivity|].
    apply (proj2 (makeReq_service_error_first
                    (HPutAll (CbFun 0)) (VStr "ECONNRESET") VUndefined quiet
                    fresh)).
    reflexivity.
Defined.

(** C6 on two keys and one entity. *)
Lemma putAll_length_mismatch_throws_witness :
  List.length [alice; newcomer] <> List.length [aliceData] /\
  putAll [alice; newcomer] [aliceData] (CbFun 0) fresh =
  (fresh,
   Throw (Error "The length of the keys don't match the length of the objects")).
Proof.
  assert (H : List.length [alice; newcomer] <> List.length [aliceData])
    by (simpl; lia).
  split; [exact H|].
  apply (putAll_length_mismatch_throws
           [alice; newcomer] [aliceData] (CbFun 0) fresh H).
Defined.

(** C4 on the deletion of one key, where the global [id] is a dataset id. *)
Lemma mutations_are_non_transactional_witness :
  keyToKeyProto (g_id (global withGlobalId)) alice = Ok aliceProto /\
  snd (delAll [alice] (CbFun 0) withGlobalId) = Ok tt /\
  the_requests (fst (delAll [alice] (CbFun 0) withGlobalId)) =
  [(post "commit"
      (VObj [("mode", VStr "NON_TRANSACTIONAL");
             ("mutation", VObj [("delete", VArr [aliceProto])])]),
    HDelAll (CbFun 0))] /\
  the_calls (fst (makeReq_callback (HDelAll (CbFun 0))
                    (VStr "ECONNRESET") VUndefined VUndefined withGlobalId)) =
  [(0%nat, [AVal (VStr "ECONNRESET")])].
Proof.
  assert (H : keyToKeyProto (g_id (global withGlobalId)) alice = Ok aliceProto)
    by reflexivity.
  split; [exact H|].
  exact (proj2 (proj2 (mutations_are_non_transactional
                         withGlobalId [alice] [aliceData] (CbFun 0)
                         alice aliceProto 0%nat (VStr "ECONNRESET")
                         VUndefined VUndefined withGlobalId)) H).
Defined.

(** C7 on a complete and an incomplete key, in a transaction whose id is
    a non-empty string. *)
Lemma putAll_partitions_and_passes_response_witness :
  List.length [alice; newcomer] = List.length [aliceData; newcomerData] /\
  snd (putAll [alice; newcomer] [aliceData; newcomerData] (CbFun 0) begun) = Ok tt /\
  the_requests
    (fst (putAll [alice; newcomer] [aliceData; newcomerData] (CbFun 0) begun)) =
  the_requests begun ++
  [(post "commit"
      (VObj [("mode", VStr "NON_TRANSACTIONAL");
             ("mutation", VObj [("update", VArr [aliceEntity]);
                                ("insertAutoId", VArr [newcomerEntity])])]),
    HPutAll (CbFun 0))] /\
  the_calls (fst (makeReq_callback (HPutAll (CbFun 0)) VNull VUndefined
                    (VObj [("mutationResult", VObj [])]) begun)) =
  [(0%nat, [AVal VNull; AVal (VObj [("mutationResult", VObj [])])])].
Proof.
  assert (HL : List.length [alice; newcomer] =
               List.length [aliceData; newcomerData]) by reflexivity.
  split; [exact HL|].
  pose proof (putAll_partitions_and_passes_response
                [alice; newcomer] [aliceData; newcomerData]
                [aliceEntity; newcomerEntity] 0%nat begun
                VNull VUndefined (VObj [("mutationResult", VObj [])]) begun HL)
    as H.
  assert (HF : Forall2
                 (fun (ko : Entity.Key * Record) (e : value) =>
                    exists fields kp,
                      entityToEntityProto (snd ko) = Ok fields /\
                      keyToKeyProto (id (txn begun)) (fst ko) = Ok kp /\
                      e = VObj (assign "key" kp fields))
                 (combine [alice; newcomer] [aliceData; newcomerData])
                 [aliceEntity; newcomerEntity]).
  { repeat constructor; simpl; do 2 eexists;
      (split; [reflexivity | split; reflexivity]). }
  destruct (H HF) as (H1 & H2 & H3 & _).
  split; [exact H1|]. split; [exact H2 | exact H3].
Defined.

(** C9 on a successful [begin] followed by a [getAll] and a [rollback],
    and on a failed one. *)
Lemma begin_id_is_the_response_body_witness :
  let body := VObj [("transaction", VStr "dHgtMQ==")] in
  let w1 := fst (makeReq_callback (HBegin (CbFun 0)) VNull VUndefined body fresh) in
  let w2 := run [AGetAll [alice] (CbFun 1); ARollback (CbFun 2)] w1 in
  let w3 := fst (makeReq_callback (HBegin (CbFun 0)) (VStr "ECONNRESET")
                   VUndefined VUndefined fresh) in
  (truthy (fst (delivered VNull body)) = false /\
   id (txn w1) = body /\
   the_requests (fst (commit (CbFun 3) w2)) =
   the_requests w2 ++
   [(post "commit" (VObj [("transaction", body)]), HCommit (CbFun 3))] /\
   the_requests (fst (rollback (CbFun 3) w2)) =
   the_requests w2 ++
   [(post "rollback" (VObj [("transaction", body)]), HRollback (CbFun 3))]) /\
  (truthy (fst (delivered (VStr "ECONNRESET") VUndefined)) = true /\
   id (txn w3) = VNull).
Proof.
  intros body w1 w2 w3. split.
  - assert (Hs : truthy (fst (delivered VNull body)) = false) by reflexivity.
    split; [exact Hs|].
    destruct (proj1 (proj2 (begin_id_is_the_response_body
                              (CbFun 0) (CbFun 3) VNull VUndefined body fresh
                              [AGetAll [alice] (CbFun 1); ARollback (CbFun 2)]))
                Hs) as [Hid Hacts].
    split; [exact Hid|]. exact (Hacts eq_refl).
  - assert (Hf : truthy (fst (delivered (VStr "ECONNRESET") VUndefined)) = true)
      by reflexivity.
    split; [exact Hf|].
    exact (proj2 (proj2 (proj2 (begin_id_is_the_response_body
                                  (CbFun 0) (CbFun 3) (VStr "ECONNRESET")
                                  VUndefined VUndefined fresh []))
                    Hf) eq_refl).
Defined.

(** C5 on a complete key and on an entity with every kind of value. *)
Lemma codec_roundtrip_witness :
  ("s~abc" <> "" /\ Entity.isKeyComplete alice = true /\
   exists proto, Entity.keyToKeyProto "s~abc" alice = Ok proto /\
                 Entity.keyFromKeyProto proto = alice) /\
  (Entity.supportedEntity record = true /\
   exists proto, Entity.entityToEntityProto Wire.hasFraction record = Ok proto /\
                 Entity.entityFromEntityProto proto = record).
Proof.
  split.
  - assert (Hd : "s~abc" <> "") by discriminate.
    split; [exact Hd|]. split; [reflexivity|].
    apply (proj1 (codec_roundtrip Wire.hasFraction) "s~abc" alice Hd).
    reflexivity.
  - split; [reflexivity|].
    apply (proj2 (codec_roundtrip Wire.hasFraction) record). reflexivity.
Defined.

End Examples.

(** * The protocol as a whole *)

Section Invariants.

Import Protocol.

Context {Key Obj : Type} `{Codec : EntityCodec Key Obj}.

Local Abbreviation World := (@World Key Obj).
Local Abbreviation M := (@M Key Obj).
Local Abbreviation the_txn := (@the_txn Key Obj).
Local Abbreviation the_requests := (@the_requests Key Obj).
Local Abbreviation the_calls := (@the_calls Key Obj).

Implicit Types (w : World) (cb : callback) (h : handler) (a : @action Key Obj).
Implicit Types (err res body resp : value).







(** A call of a method leaves the transaction object as it is. *)
Lemma method_keeps_txn a :
  isResponse a = false -> preserves the_txn (perform a).
Proof.
  destruct a as [cb|cb|cb|cb|keys cb|keys objs cb|keys cb|h err res body];
    simpl; intros Hr; try discriminate.
  - intros w; reflexivity.
  - intros w; reflexivity.
  - intros w; reflexivity.
  - intros w. unfold finalize, bind, this. simpl.
    destruct (truthy (finalized (txn w))); simpl; [destruct cb|]; reflexivity.
  - unfold getAll.
    apply preserves_bind; [intros w; reflexivity|]; intros _.
    apply preserves_bind; [apply forEach_encodeKey_quiet|]; intros _.
    apply preserves_bind; [apply preserves_the_global|]; intros g.
    intros w; reflexivity.
  - unfold putAll.
    destruct (negb (List.length keys =? List.length objs)%nat);
      [apply preserves_throw|].
    apply preserves_bind; [apply putLoop_quiet|]; intros b.
    intros w; reflexivity.
  - unfold delAll.
    apply preserves_bind; [intros w; reflexivity|]; intros _.
    apply preserves_bind; [apply forEach_encodeKey_quiet|]; intros _.
    apply preserves_bind; [apply preserves_the_global|]; intros g.
    intros w; reflexivity.
Qed.

(** A response leaves alone every part of the transaction object that is
    neither [id] (written by the response of [begin]) nor [finalized]
    (written by the responses of [commit] and [rollback]). *)
Lemma perform_keeps {B} (g : Transaction -> B) a :
  (isBeginResponse a = false \/
   forall t v, g {| datasetId := datasetId t; id := v;
                    isFinalized := isFinalized t;
                    finalized := finalized t |} = g t) ->
  (isOutcome a = false \/
   forall t v, g {| datasetId := datasetId t; id := id t;
                    isFinalized := isFinalized t; finalized := v |} = g t) ->
  preserves (fun w => g (txn w)) (perform a).
Proof.
  intros Hid Hfin.
  destruct (isResponse a) eqn:Hr.
  - destruct a as [| | | | | | |h err res body]; try discriminate. simpl.
    rewrite makeReq_callback_delivered.
    generalize (fst (delivered err body)), (snd (delivered err body)).
    intros e r.
    assert (Hcall : forall c args,
               preserves (fun w => g (txn w))
                         (invoke (Key := Key) (Obj := Obj) c args))
      by (intros [|f] args w; reflexivity).
    assert (Hg : forall c args,
               preserves (fun w => g (txn w))
                         (guarded (Key := Key) (Obj := Obj) c args))
      by (intros [|f] args w; reflexivity).
    destruct h as [cb|cb|cb|cb|cb|cb]; simpl in *.
    + destruct Hid as [Hid|Hid]; [discriminate|].
      apply preserves_bind; [|intros _; apply Hg].
      destruct (truthy e); [apply preserves_ret|].
      intros w. simpl. apply Hid.
    + destruct Hfin as [Hfin|Hfin]; [discriminate|].
      apply preserves_bind; [|intros _; apply Hg].
      intros w. simpl. apply Hfin.
    + destruct Hfin as [Hfin|Hfin]; [discriminate|].
      apply preserves_bind; [|intros _; apply Hg].
      intros w. simpl. apply Hfin.
    + destruct (truthy e); [apply Hcall|].
      apply preserves_bind; [apply preserves_lift|]; intros found.
      destruct found; try apply preserves_throw.
      apply preserves_bind; [apply decodeFound_quiet | intros b; apply Hg].
    + apply Hcall.
    + apply Hg.
  - intros w. pose proof (method_keeps_txn a Hr w) as H.
    unfold Datastore.the_txn in H. rewrite H. reflexivity.
Qed.

Lemma run_keeps {B} (g : Transaction -> B) (acts : list action) :
  (existsb isBeginResponse acts = false \/
   forall t v, g {| datasetId := datasetId t; id := v;
                    isFinalized := isFinalized t;
                    finalized := finalized t |} = g t) ->
  (existsb isOutcome acts = false \/
   forall t v, g {| datasetId := datasetId t; id := id t;
                    isFinalized := isFinalized t; finalized := v |} = g t) ->
  forall w, g (txn (run acts w)) = g (txn w).
Proof.
  induction acts as [|a acts IH]; intros Hid Hfin w; simpl; [reflexivity|].
  rewrite IH.
  - apply (perform_keeps g a).
    + destruct Hid as [Hid|Hid]; [left|right; exact Hid].
      simpl in Hid. apply orb_false_iff in Hid. apply Hid.
    + destruct Hfin as [Hfin|Hfin]; [left|right; exact Hfin].
      simpl in Hfin. apply orb_false_iff in Hfin. apply Hfin.
  - destruct Hid as [Hid|Hid]; [left|right; exact Hid].
    simpl in Hid. apply orb_false_iff in Hid. apply Hid.
  - destruct Hfin as [Hfin|Hfin]; [left|right; exact Hfin].
    simpl in Hfin. apply orb_false_iff in Hfin. apply Hfin.
Qed.


(** X2: nothing ever writes [isFinalized], the field the constructor
    initialises, nor [datasetId]; and [finalized], the property the
    methods read, is written by the responses of [commit] and [rollback]
    only. *)
Theorem fields_of_a_run (acts : list action) w :
  isFinalized (txn (run acts w)) = isFinalized (txn w) /\
  datasetId (txn (run acts w)) = datasetId (txn w) /\
  (existsb isOutcome acts = false ->
   finalized (txn (run acts w)) = finalized (txn w)).
Proof.
  split; [|split].
  - apply (run_keeps isFinalized); right; reflexivity.
  - apply (run_keeps datasetId); right; reflexivity.
  - intros H. apply (run_keeps finalized); [right; reflexivity | left; exact H].
Qed.

(** X3: no method calls the callback it is given before it returns, but
    [finalize] on a transaction whose [finalized] is truthy, which calls
    it with no argument: callbacks are called when responses arrive. *)
Theorem callbacks_wait_for_responses a w :
  isResponse a = false ->
  the_calls (fst (perform a w)) = the_calls w \/
  exists f, a = AFinalize (CbFun f) /\
            truthy (finalized (txn w)) = true /\
            the_calls (fst (perform a w)) = the_calls w ++ [(f, [])].
Proof.
  assert (Hsend : forall meth req h w',
             the_calls (fst (makeReq meth req h w')) = the_calls w').
  { intros. unfold Datastore.the_calls. simpl. rewrite calls_app. simpl.
    apply app_nil_r. }
  assert (Hthen : forall A (m : M A) (k : A -> M unit),
             preserves the_calls m ->
             (forall x, preserves the_calls (k x)) ->
             the_calls (fst (bind m k w)) = the_calls w).
  { intros A m k Hm Hk. apply (preserves_bind the_calls m k Hm Hk). }
  destruct a as [cb|cb|cb|cb|keys cb|keys objs cb|keys cb|h err res body];
    simpl; intros Hr; try discriminate.
  - left. apply Hsend.
  - left. apply (Hsend "rollback").
  - left. apply (Hsend "commit").
  - unfold finalize, bind, this. simpl.
    destruct (truthy (finalized (txn w))) eqn:Hf; simpl.
    + destruct cb as [|f]; [left; reflexivity|].
      right. exists f. repeat split.
      unfold Datastore.the_calls. simpl. rewrite calls_app. reflexivity.
    + left. apply (Hsend "commit").
  - left. unfold getAll. apply Hthen; [intros w'; reflexivity|]; intros _.
    apply preserves_bind; [apply forEach_encodeKey_quiet|]; intros _.
    apply preserves_bind; [apply preserves_the_global|]; intros g w'.
    apply Hsend.
  - left. unfold putAll.
    destruct (negb (List.length keys =? List.length objs)%nat);
      [reflexivity|].
    apply Hthen; [apply putLoop_quiet|]. intros b w'. apply Hsend.
  - left. unfold delAll. apply Hthen; [intros w'; reflexivity|]; intros _.
    apply preserves_bind; [apply forEach_encodeKey_quiet|]; intros _.
    apply preserves_bind; [apply preserves_the_global|]; intros g w'.
    apply Hsend.
Qed.

End Invariants.

(** * The batch operations *)

Section Batches.

Import Protocol.

Context {Key Obj : Type} `{Codec : EntityCodec Key Obj}.

Local Abbreviation World := (@World Key Obj).
Local Abbreviation M := (@M Key Obj).
Local Abbreviation the_requests := (@the_requests Key Obj).
Local Abbreviation the_calls := (@the_calls Key Obj).

Implicit Types (w : World) (cb : callback) (h : handler).
Implicit Types (err res body resp : value).

(** The world after the keys [done] were given to the codec with dataset
    id [d], [keysProto] being [protos] by then. *)
Local Abbreviation encoded w d done protos :=
  {| txn := txn w;
     global := {| g_id := d; keysProto := VArr protos |};
     trace := trace w ++ map (KeyToKeyProto d) done |}.

Lemma requests_of_codec_calls d (keys : list Key) :
  requests (Obj := Obj) (map (KeyToKeyProto d) keys) = [].
Proof. induction keys; simpl; auto. Qed.

Lemma calls_of_codec_calls d (keys : list Key) :
  calls (Obj := Obj) (map (KeyToKeyProto d) keys) = [].
Proof. induction keys; simpl; auto. Qed.

Lemma encodeKey_ok (k : Key) p acc w :
  keysProto (global w) = VArr acc ->
  keyToKeyProto (g_id (global w)) k = Ok p ->
  encodeKey k w = (encoded w (g_id (global w)) [k] (acc ++ [p]), Ok tt).
Proof.
  intros Ha Hk.
  unfold encodeKey, call_keyToKeyProto, push_keysProto, bind, the_global,
    set_global, emit, lift. simpl.
  rewrite Ha. simpl. rewrite Hk. simpl. rewrite Ha. reflexivity.
Qed.

Lemma encodeKey_throws (k : Key) e acc w :
  keysProto (global w) = VArr acc ->
  keyToKeyProto (g_id (global w)) k = Throw e ->
  encodeKey k w = (encoded w (g_id (global w)) [k] acc, Throw e).
Proof.
  intros Ha Hk.
  unfold encodeKey, call_keyToKeyProto, push_keysProto, bind, the_global,
    set_global, emit, lift. simpl.
  rewrite Ha. simpl. rewrite Hk. simpl. rewrite <- Ha.
  destruct w as [t [d kp] tr]. reflexivity.
Qed.

(** The loop of [getAll] and [delAll] on keys that are all encoded. *)
Lemma forEach_encodeKey_ok d (keys : list Key) (ps : list value) :
  Forall2 (fun k p => keyToKeyProto d k = Ok p) keys ps ->
  forall acc w,
    g_id (global w) = d ->
    keysProto (global w) = VArr acc ->
    forEach keys encodeKey w = (encoded w d keys (acc ++ ps), Ok tt).
Proof.
  induction 1 as [|k p keys ps Hk HF IH]; intros acc w Hd Ha; simpl.
  - unfold ret. rewrite !app_nil_r, <- Ha, <- Hd.
    destruct w as [t [d' kp] tr]. reflexivity.
  - unfold bind at 1. rewrite <- Hd in Hk.
    rewrite (encodeKey_ok k p acc w Ha Hk).
    rewrite (IH (acc ++ [p])) by (simpl; auto). simpl.
    rewrite Hd, <- !app_assoc. reflexivity.
Qed.

(** The loop on keys of which [k] is the first the codec refuses. *)
Lemma forEach_encodeKey_throws d (pre post : list Key) (k : Key) ps e :
  Forall2 (fun k p => keyToKeyProto d k = Ok p) pre ps ->
  keyToKeyProto d k = Throw e ->
  forall acc w,
    g_id (global w) = d ->
    keysProto (global w) = VArr acc ->
    forEach (pre ++ k :: post) encodeKey w =
    (encoded w d (pre ++ [k]) (acc ++ ps), Throw e).
Proof.
  induction 1 as [|k0 p keys ps Hk HF IH]; intros He acc w Hd Ha; simpl.
  - unfold bind. rewrite <- Hd in He.
    rewrite (encodeKey_throws k e acc w Ha He).
    rewrite app_nil_r, Hd. reflexivity.
  - unfold bind at 1. rewrite <- Hd in Hk.
    rewrite (encodeKey_ok k0 p acc w Ha Hk).
    rewrite (IH He (acc ++ [p])) by (simpl; auto). simpl.
    rewrite Hd, <- !app_assoc. reflexivity.
Qed.

(** The run of [getAll] on keys that are all encoded. *)
Lemma getAll_on_encoded_keys (keys : list Key) (ps : list value) cb w :
  Forall2 (fun k p => keyToKeyProto (g_id (global w)) k = Ok p) keys ps ->
  getAll keys cb w =
  ({| txn := txn w;
      global := {| g_id := g_id (global w); keysProto := VArr ps |};
      trace := trace w ++ map (KeyToKeyProto (g_id (global w))) keys
               ++ [Req (makeReq_opts (txn w) "lookup"
                          (VObj [("keys", VArr ps)])) (HGetAll cb)] |},
   Ok tt).
Proof.
  intros HF. unfold getAll, bind at 1. simpl.
  unfold bind at 1.
  rewrite (forEach_encodeKey_ok _ keys ps HF []) by reflexivity.
  unfold bind, the_global. cbn [fst snd]. rewrite makeReq_sends.
  cbn [txn global trace keysProto]. rewrite <- app_assoc. reflexivity.
Qed.

(** X4: when the codec encodes every key (given the global [id], see
    C3), [getAll] returns having sent one [lookup] request whose body is
    [{keys: protos}], the protos in the order of the keys, and having
    called no callback.  The request holds this call's protos only,
    whatever the global [keysProto] held before; that global is left
    holding them. *)
Theorem getAll_sends_the_protos (keys : list Key) (ps : list value) cb w :
  Forall2 (fun k p => keyToKeyProto (g_id (global w)) k = Ok p) keys ps ->
  getAll keys cb w =
  ({| txn := txn w;
      global := {| g_id := g_id (global w); keysProto := VArr ps |};
      trace := trace w ++ map (KeyToKeyProto (g_id (global w))) keys
               ++ [Req (makeReq_opts (txn w) "lookup"
                          (VObj [("keys", VArr ps)])) (HGetAll cb)] |},
   Ok tt).
Proof.
  intros HF. unfold getAll, bind at 1. simpl.
  unfold bind at 1.
  rewrite (forEach_encodeKey_ok _ keys ps HF []) by reflexivity.
  unfold bind, the_global. cbn [fst snd]. rewrite makeReq_sends.
  cbn [txn global trace keysProto]. rewrite <- app_assoc. reflexivity.
Qed.

(** X5: likewise [delAll] sends one [commit] request whose body is
    [{mode: 'NON_TRANSACTIONAL', mutation: {delete: protos}}], for any
    number of keys. *)
Theorem delAll_sends_the_protos (keys : list Key) (ps : list value) cb w :
  Forall2 (fun k p => keyToKeyProto (g_id (global w)) k = Ok p) keys ps ->
  delAll keys cb w =
  ({| txn := txn w;
      global := {| g_id := g_id (global w); keysProto := VArr ps |};
      trace := trace w ++ map (KeyToKeyProto (g_id (global w))) keys
               ++ [Req (makeReq_opts (txn w) "commit"
                          (VObj [("mode", VStr "NON_TRANSACTIONAL");
                                 ("mutation", VObj [("delete", VArr ps)])]))
                       (HDelAll cb)] |},
   Ok tt).
Proof.
  intros HF. unfold delAll, bind at 1. simpl.
  unfold bind at 1.
  rewrite (forEach_encodeKey_ok _ keys ps HF []) by reflexivity.
  unfold bind, the_global. cbn [fst snd]. rewrite makeReq_sends.
  cbn [txn global trace keysProto]. rewrite <- app_assoc. reflexivity.
Qed.

(** X6: when [k] is the first key the codec refuses, throwing [e],
    [getAll] and [delAll] throw [e] to their caller: no request is sent,
    no callback is called, and the keys after [k] are not looked at. *)
Theorem getAll_delAll_throw_what_the_codec_throws
  (pre post : list Key) (k : Key) (ps : list value) (e : exn) cb w :
  Forall2 (fun k p => keyToKeyProto (g_id (global w)) k = Ok p) pre ps ->
  keyToKeyProto (g_id (global w)) k = Throw e ->
  let w' := {| txn := txn w;
               global := {| g_id := g_id (global w); keysProto := VArr ps |};
               trace := trace w
                        ++ map (KeyToKeyProto (g_id (global w))) (pre ++ [k]) |} in
  getAll (pre ++ k :: post) cb w = (w', Throw e) /\
  delAll (pre ++ k :: post) cb w = (w', Throw e) /\
  the_requests w' = the_requests w /\
  the_calls w' = the_calls w.
Proof.
  intros HF He w'. subst w'.
  assert (Hloop := forEach_encodeKey_throws _ pre post k ps e HF He []).
  split; [|split; [|split]].
  - unfold getAll, bind at 1. simpl. unfold bind at 1.
    rewrite Hloop by reflexivity. reflexivity.
  - unfold delAll, bind at 1. simpl. unfold bind at 1.
    rewrite Hloop by reflexivity. reflexivity.
  - unfold Datastore.the_requests. simpl.
    rewrite requests_app, requests_of_codec_calls. apply app_nil_r.
  - unfold Datastore.the_calls. simpl.
    rewrite calls_app, calls_of_codec_calls. apply app_nil_r.
Qed.

(** The entity [putAll] sends for an object under a key (as for C7). *)
Local Abbreviation encodes d :=
  (fun (ko : Key * Obj) (e : value) =>
     exists fields kp,
       entityToEntityProto (snd ko) = Ok fields /\
       keyToKeyProto d (fst ko) = Ok kp /\
       e = VObj (assign "key" kp fields)).

(** The codec refuses the object, or else the key. *)
Local Abbreviation refuses d k o e :=
  (entityToEntityProto o = Throw e \/
   exists fields, entityToEntityProto o = Ok fields /\
                  keyToKeyProto d k = Throw e).

Lemma putLoop_throws (k : Key) (o : Obj) (ks2 : list Key) (os2 : list Obj) e
  (ks1 : list Key) :
  forall (os1 : list Obj) (es update insertAutoId : list value) w,
    List.length ks1 = List.length os1 ->
    Forall2 (encodes (id (txn w))) (combine ks1 os1) es ->
    refuses (id (txn w)) k o e ->
    snd (putLoop (ks1 ++ k :: ks2) (os1 ++ o :: os2) update insertAutoId w) =
    Throw e.
Proof.
  induction ks1 as [|k1 ks1 IH]; intros [|o1 os1] es u i w HL HF Hr;
    simpl in HL; try discriminate.
  - simpl. unfold bind at 1.
    unfold putOne, bind, lift, this, call_keyToKeyProto, emit. simpl.
    destruct Hr as [Ho|(fields & Ho & Hk)]; rewrite Ho; simpl;
      [reflexivity|]. rewrite Hk. reflexivity.
  - simpl in HF. inversion HF as [|ko e1 kos es' He HF' E1 E2]; subst.
    destruct He as (fields & kp & Hf & Hk & ->). simpl in Hf, Hk.
    simpl. unfold bind at 1.
    unfold putOne, bind, lift, this, call_keyToKeyProto, emit. simpl.
    rewrite Hf, Hk.
    destruct (isKeyComplete k1); simpl;
      (eapply IH; [congruence | exact HF' | exact Hr]).
Qed.

(** X7: when the codec refuses an object or its key, throwing [e], and
    encodes what comes before, [putAll] throws [e] to its caller: no
    request is sent and no callback is called, whatever comes after. *)
Theorem putAll_throws_what_the_codec_throws
  (ks1 ks2 : list Key) (os1 os2 : list Obj) (k : Key) (o : Obj)
  (es : list value) (e : exn) cb w :
  List.length ks1 = List.length os1 ->
  List.length ks2 = List.length os2 ->
  Forall2 (encodes (id (txn w))) (combine ks1 os1) es ->
  refuses (id (txn w)) k o e ->
  let r := putAll (ks1 ++ k :: ks2) (os1 ++ o :: os2) cb w in
  snd r = Throw e /\
  the_requests (fst r) = the_requests w /\
  the_calls (fst r) = the_calls w.
Proof.
  intros H1 H2 HF Hr r. subst r.
  assert (Hloop := putLoop_throws k o ks2 os2 e ks1 os1 es [] [] w H1 HF Hr).
  unfold putAll.
  replace (List.length (ks1 ++ k :: ks2) =? List.length (os1 ++ o :: os2))%nat
    with true
    by (symmetry; apply Nat.eqb_eq; rewrite !length_app; simpl; lia).
  simpl. unfold bind.
  destruct (putLoop (ks1 ++ k :: ks2) (os1 ++ o :: os2) [] [] w)
    as [w1 r] eqn:E.
  simpl in Hloop. subst r. simpl.
  split; [reflexivity|]. split.
  - apply (preserves_at _ _ _ _ _ (proj1 (proj2 (putLoop_quiet _ _ [] []))) E).
  - apply (preserves_at _ _ _ _ _ (proj2 (proj2 (putLoop_quiet _ _ [] []))) E).
Qed.

(** X8: [put], for an object and a key the codec encodes, returns having
    sent one [commit] request with the one entity under [update] when the
    key is complete and under [insertAutoId] when it is not, the other
    bucket empty. *)
Theorem put_sends_one_entity (key : Key) (obj : Obj) fields kp cb w :
  entityToEntityProto obj = Ok fields ->
  keyToKeyProto (id (txn w)) key = Ok kp ->
  let e := VObj (assign "key" kp fields) in
  put key obj cb w =
  ({| txn := txn w; global := global w;
      trace := trace w ++
               [KeyToKeyProto (id (txn w)) key;
                Req (makeReq_opts (txn w) "commit"
                       (VObj [("mode", VStr "NON_TRANSACTIONAL");
                              ("mutation",
                               VObj [("update",
                                      VArr (if isKeyComplete key
                                            then [e] else []));
                                     ("insertAutoId",
                                      VArr (if isKeyComplete key
                                            then [] else [e]))])]))
                    (HPutAll cb)] |},
   Ok tt).
Proof.
  intros Ho Hk e. subst e.
  unfold put, putAll, putLoop, putOne, bind, lift, this, call_keyToKeyProto,
    emit, ret. simpl.
  rewrite Ho. simpl. rewrite Hk. simpl.
  destruct (isKeyComplete key); simpl; rewrite makeReq_sends; simpl;
    rewrite <- app_assoc; reflexivity.
Qed.

(** What the server found: the proto of an entity, with that of its key
    inside, that the codec decodes. *)
Local Abbreviation decodes :=
  (fun (item : value) (ko : Key * Obj) =>
     exists e kp,
       member item "entity" = Ok e /\
       member e "key" = Ok kp /\
       keyFromKeyProto kp = Ok (fst ko) /\
       entityFromEntityProto e = Ok (snd ko)).

Lemma decodeFound_ok (items : list value) (kos : list (Key * Obj)) :
  Forall2 decodes items kos ->
  forall keys results w,
    decodeFound items keys results w =
    (w, Ok (keys ++ map fst kos, results ++ map snd kos)).
Proof.
  induction 1 as [|item ko items kos (e & kp & He & Hkp & Hk & Ho) HF IH];
    intros keys results w; simpl.
  - rewrite !app_nil_r. reflexivity.
  - unfold bind, lift. rewrite He, Hkp, Hk, Ho. rewrite IH.
    rewrite <- !app_assoc. reflexivity.
Qed.

(** The response function of [getAll] on what the codec decodes. *)
Lemma getAll_response_on_found
  (items : list value) (kos : list (Key * Obj)) cb err res body w :
  truthy err = false ->
  truthy (prop body "error") = false ->
  prop body "found" = VArr items ->
  Forall2 decodes items kos ->
  makeReq_callback (HGetAll cb) err res body w =
  guarded cb [AVal VNull; AKeys (map fst kos); AObjs (map snd kos)] w /\
  List.length (map fst kos) = List.length items /\
  List.length (map snd kos) = List.length items.
Proof.
  intros Herr Hbe Hfound HF. split.
  - unfold makeReq_callback. rewrite Hbe, andb_false_r. simpl.
    rewrite Herr. unfold bind, lift, member.
    assert (Hn : isNullish body = false)
      by (destruct body; simpl in Hfound; try discriminate; reflexivity).
    rewrite Hn, Hfound. rewrite (decodeFound_ok items kos HF). reflexivity.
  - rewrite !length_map. apply Forall2_length in HF. auto.
Qed.

(** X9: when a [lookup] response has no error and its [found] is an
    array of entities the codec decodes, the callback of [getAll] is
    called once (if there is one) with [null], the decoded keys and the
    decoded entities, both in the order of [found] and as many as
    [found] has: what the server found, not what was asked. *)
Theorem getAll_response_decodes_found
  (items : list value) (kos : list (Key * Obj)) cb err res body w :
  truthy err = false ->
  truthy (prop body "error") = false ->
  prop body "found" = VArr items ->
  Forall2 decodes items kos ->
  makeReq_callback (HGetAll cb) err res body w =
  guarded cb [AVal VNull; AKeys (map fst kos); AObjs (map snd kos)] w /\
  List.length (map fst kos) = List.length items /\
  List.length (map snd kos) = List.length items.
Proof.
  intros Herr Hbe Hfound HF. split.
  - unfold makeReq_callback. rewrite Hbe, andb_false_r. simpl.
    rewrite Herr. unfold bind, lift, member.
    assert (Hn : isNullish body = false)
      by (destruct body; simpl in Hfound; try discriminate; reflexivity).
    rewrite Hn, Hfound. rewrite (decodeFound_ok items kos HF). reflexivity.
  - rewrite !length_map. apply Forall2_length in HF. auto.
Qed.

(** X10: when a [lookup] response has no error and its body has no
    array under [found] (no body at all, an empty one, one that only lists
    what is [missing]), the response function of [getAll] throws a
    [TypeError] and calls no callback. *)
Theorem getAll_response_without_found cb err res body w :
  truthy err = false ->
  truthy body && truthy (prop body "error") = false ->
  (forall items, prop body "found" <> VArr items) ->
  exists msg,
    makeReq_callback (HGetAll cb) err res body w = (w, Throw (TypeError msg)).
Proof.
  intros Herr Hbe Hfound. unfold makeReq_callback. rewrite Hbe. simpl.
  rewrite Herr. unfold bind, lift, member.
  destruct (isNullish body); [eexists; reflexivity|].
  destruct (prop body "found") as [| | | | |items|] eqn:E;
    try (eexists; reflexivity).
  destruct (Hfound items eq_refl).
Qed.

(** X11: after a [commit] or a [rollback] that failed, [finalize] sends
    nothing and calls its callback with no argument, as on success: the
    failure is not reported again and the commit is not retried.  Without
    a callback it throws a [TypeError]. *)
Theorem finalize_after_a_failure (viaRollback : bool) cb0 f err res body w :
  truthy (fst (delivered err body)) = true ->
  let h := if viaRollback then HRollback cb0 else HCommit cb0 in
  let w1 := fst (makeReq_callback h err res body w) in
  finalize (CbFun f) w1 =
  ({| txn := txn w1; global := global w1; trace := trace w1 ++ [Call f []] |},
   Ok tt) /\
  finalize CbUndefined w1 =
  (w1, Throw (TypeError "undefined is not a function")).
Proof.
  intros Hf h w1.
  assert (Hfin : finalized (txn w1) = VBool true).
  { subst w1 h. rewrite makeReq_callback_delivered.
    destruct viaRollback; simpl; unfold bind; simpl; rewrite Hf;
      destruct cb0; reflexivity. }
  unfold finalize, bind, this. simpl. rewrite Hfin. simpl. auto.
Qed.

End Batches.

(** * The dataset *)

Section DatasetProperties.

Import Protocol.

Lemma indexOf_of_prefixed (p rest : string) :
  (String.length p > 0)%nat ->
  Facade.indexOf (p ++ rest) p = 0%Z.
Proof.
  intros Hp. unfold Facade.indexOf.
  assert (Hpre : prefix p (p ++ rest) = true).
  { apply prefix_correct. clear Hp.
    induction p as [|c p IH]; simpl; [destruct rest; reflexivity|].
    rewrite IH. reflexivity. }
  destruct p as [|c p]; [simpl in Hp; lia|].
  simpl. simpl in Hpre. rewrite Hpre. reflexivity.
Qed.

Lemma indexOf_sign (s p : string) :
  (Facade.indexOf s p <? 0)%Z = false <->
  exists n, String.index 0 p s = Some n.
Proof.
  unfold Facade.indexOf. destruct (String.index 0 p s) as [n|].
  - split; [eauto|]. intros _. apply Z.ltb_ge. lia.
  - split; [discriminate|]. intros [n H]. discriminate.
Qed.

(** [s || ''] is [s]. *)
Lemma or_empty (s : string) : (if truthy (VStr s) then s else "") = s.
Proof.
  simpl. destruct (s =? "")%string eqn:E; [|reflexivity].
  apply String.eqb_eq in E. rewrite E. reflexivity.
Qed.

(** The id of a dataset has a partition marker somewhere. *)
Lemma newDataset_marked (opts : option Facade.Options) :
  (Facade.indexOf (Facade.id (Facade.newDataset opts)) "s~" <? 0)%Z = false \/
  (Facade.indexOf (Facade.id (Facade.newDataset opts)) "e~" <? 0)%Z = false.
Proof.
  unfold Facade.newDataset. cbv zeta.
  match goal with
  | |- context [if ?c then _ else _] => destruct c eqn:Hc
  end; cbn [Facade.id].
  - left. rewrite (indexOf_of_prefixed "s~"); [reflexivity | simpl; lia].
  - apply andb_false_iff in Hc. exact Hc.
Qed.

(** X12: whatever the options, the id of a new dataset contains [s~] or
    [e~] (at some position [n]), and its own transaction is a new one on
    that id; and making a dataset of the id of a dataset gives the same
    dataset: an id is never prefixed twice. *)
Theorem newDataset_id (opts : option Facade.Options) :
  let d := Facade.newDataset opts in
  (exists n, substring n 2 (Facade.id d) = "s~" \/
             substring n 2 (Facade.id d) = "e~") /\
  Facade.transaction d = newTransaction (Facade.id d) /\
  Facade.newDataset (Some {| Facade.projectId := Some (Facade.id d) |}) = d.
Proof.
  intros d. pose proof (newDataset_marked opts) as Hm. fold d in Hm.
  split; [|split].
  - destruct Hm as [H|H]; apply indexOf_sign in H; destruct H as [n H];
      exists n; [left|right]; apply (index_correct1 _ _ _ _ H).
  - reflexivity.
  - assert (Hc : (Facade.indexOf (Facade.id d) "s~" <? 0)%Z &&
                 (Facade.indexOf (Facade.id d) "e~" <? 0)%Z = false)
      by (apply andb_false_iff; exact Hm).
    unfold Facade.newDataset at 1. cbv zeta. cbn [Facade.projectId].
    rewrite or_empty, Hc. reflexivity.
Qed.

End DatasetProperties.

(** * The methods built on callbacks of their own *)

Section FacadeProperties.

Import Protocol.

Context {Key Obj : Type} `{Codec : EntityCodec Key Obj}.
Variable nameOf : Facade.closure -> nat.

Local Abbreviation World := (@World Key Obj).
Local Abbreviation M := (@M Key Obj).
Local Abbreviation the_requests := (@the_requests Key Obj).
Local Abbreviation the_calls := (@the_calls Key Obj).
Local Abbreviation get := (Facade.get nameOf).
Local Abbreviation runInTransaction := (Facade.runInTransaction nameOf).
Local Abbreviation IVal := (@Facade.IVal Key Obj).
Local Abbreviation begin_callback := (@Facade.begin_callback Key Obj).

Implicit Types (w : World) (cb : callback) (h : handler).
Implicit Types (err res body resp : value).

(** The world [w] after one more event. *)
Local Abbreviation after w e :=
  {| txn := txn w; global := global w; trace := trace w ++ [e] |}.

Local Abbreviation decodes :=
  (fun (item : value) (ko : Key * Obj) =>
     exists e kp,
       member item "entity" = Ok e /\
       member e "key" = Ok kp /\
       keyFromKeyProto kp = Ok (fst ko) /\
       entityFromEntityProto e = Ok (snd ko)).

(** X13: [get], for a key the codec encodes, sends one [lookup] request
    for that key.  When the response has no error and [found] is an array
    the codec decodes, the function [get] gave to [getAll] is called with
    the decoded arrays, and it calls the callback of [get] with [null]
    and the first key and entity found; when [found] is empty, with
    [null] and two [undefined], not with an error: the test
    [objs.length < 0] never holds. *)
Theorem get_gives_the_first_found
  (key : Key) (p : value) (items : list value) (kos : list (Key * Obj))
  cb err res body w w2 :
  keyToKeyProto (g_id (global w)) key = Ok p ->
  truthy err = false ->
  truthy (prop body "error") = false ->
  prop body "found" = VArr items ->
  Forall2 decodes items kos ->
  let g := nameOf (Facade.GetCallback cb) in
  let keys := map fst kos in
  let objs := map snd kos in
  the_requests (fst (get key cb w)) =
  the_requests w ++
  [(makeReq_opts (txn w) "lookup" (VObj [("keys", VArr [p])]),
    HGetAll (CbFun g))] /\
  makeReq_callback (HGetAll (CbFun g)) err res body w2 =
  (after w2 (Call g [AVal VNull; AKeys keys; AObjs objs]), Ok tt) /\
  Facade.get_callback cb VNull (Some keys) (Some objs) =
  Facade.call cb
    match kos with
    | [] => [IVal VNull; IVal VUndefined; IVal VUndefined]
    | ko :: _ => [IVal VNull; Facade.IKey (fst ko); Facade.IObj (snd ko)]
    end.
Proof.
  intros Hk Herr Hbe Hfound HF g keys objs. split; [|split].
  - unfold Facade.get.
    rewrite (getAll_on_encoded_keys [key] [p]) by (repeat constructor; exact Hk).
    unfold Datastore.the_requests. cbn [fst trace].
    rewrite requests_app. reflexivity.
  - destruct (getAll_response_on_found items kos (CbFun g) err res body w2
                Herr Hbe Hfound HF) as [H _].
    exact H.
  - unfold Facade.get_callback. simpl truthy. cbv iota.
    replace (Z.of_nat (List.length objs) <? 0)%Z with false
      by (symmetry; apply Z.ltb_ge; lia).
    subst keys objs. destruct kos as [|ko kos']; reflexivity.
Qed.

(** X14: when the response of the request of [get] is an error (of the
    transport or of the service), the callback of [get] is called with
    that error alone. *)
Theorem get_passes_the_error cb err res body w :
  truthy (fst (delivered err body)) = true ->
  let g := nameOf (Facade.GetCallback cb) in
  let e := fst (delivered err body) in
  makeReq_callback (HGetAll (CbFun g)) err res body w =
  (after w (Call g [AVal e]), Ok tt) /\
  Facade.get_callback cb e None None = Facade.call cb [IVal e].
Proof.
  intros He g e. subst e. split.
  - rewrite makeReq_callback_delivered. simpl. rewrite He. reflexivity.
  - unfold Facade.get_callback. rewrite He. reflexivity.
Qed.

(** X15: [runInTransaction] makes a new transaction on the dataset's id
    and sends its [beginTransaction] request.  When the response is a
    failure, the transaction keeps the id [null] and the callback of
    [runInTransaction] is called with the error; [fn] is not called. *)
Theorem runInTransaction_stops_at_a_failed_begin
  (this : Facade.Dataset) (fn cb : callback) err res body w :
  truthy (fst (delivered err body)) = true ->
  let b := nameOf (Facade.BeginCallback fn cb) in
  let e := fst (delivered err body) in
  let w1 := after (Facade.spawn (Facade.id this) w)
                  (Req (makeReq_opts (newTransaction (Facade.id this))
                          "beginTransaction" VNull)
                       (HBegin (CbFun b))) in
  runInTransaction this fn cb w = (w1, Ok tt) /\
  makeReq_callback (HBegin (CbFun b)) err res body w1 =
  (after w1 (Call b [AVal e]), Ok tt) /\
  id (txn w1) = VNull /\
  begin_callback fn cb e = Facade.call cb [IVal e].
Proof.
  intros He b e w1. subst e. split; [reflexivity|]. split; [|split].
  - rewrite makeReq_callback_delivered. simpl. unfold bind. simpl.
    rewrite He. reflexivity.
  - reflexivity.
  - unfold Facade.begin_callback. rewrite He. reflexivity.
Qed.

(** X16: when the response to that [beginTransaction] is a success,
    the id of the new transaction is the body of the response, [fn] is
    called with the transaction and [done], and [done] (called before
    anything else is done to the transaction) sends a [commit] request
    with body [{transaction: body}] for the dataset's id, whose response
    function is the one of [commit] with the callback of
    [runInTransaction]. *)
Theorem runInTransaction_hands_over_the_transaction
  (this : Facade.Dataset) (fn cb : callback) err res body w :
  truthy (fst (delivered err body)) = false ->
  let b := nameOf (Facade.BeginCallback fn cb) in
  let w1 := fst (runInTransaction this fn cb w) in
  let w2 := fst (makeReq_callback (HBegin (CbFun b)) err res body w1) in
  the_calls w2 = the_calls w ++ [(b, [AVal (fst (delivered err body))])] /\
  id (txn w2) = body /\
  begin_callback fn cb (fst (delivered err body)) =
  Facade.call fn [Facade.ITransaction; Facade.IDone cb] /\
  Facade.done cb w2 =
  (after w2 (Req {| method := "POST";
                    uri := (DATASTORE_BASE_URL ++ "/" ++ Facade.id this
                            ++ "/commit")%string;
                    json := VObj [("transaction", body)] |}
                 (HCommit cb)),
   Ok tt).
Proof.
  intros Hs b w1 w2.
  assert (Hb : delivered err body = (err, body)).
  { unfold delivered in *.
    destruct (truthy body && truthy (prop body "error")) eqn:Ht;
      [|reflexivity].
    simpl in Hs. apply andb_true_iff in Ht. destruct Ht; congruence. }
  assert (Hw2 : w2 = {| txn := {| datasetId := Facade.id this; id := body;
                                  isFinalized := false;
                                  finalized := VUndefined |};
                        global := global w;
                        trace := trace w1 ++ [Call b [AVal err]] |}).
  { subst w2. rewrite makeReq_callback_delivered. rewrite Hb in *.
    simpl in Hs. simpl. unfold bind. simpl. rewrite Hs. reflexivity. }
  rewrite Hb. simpl fst. split; [|split; [|split]].
  - rewrite Hw2. unfold Datastore.the_calls. simpl.
    rewrite !calls_app. simpl. rewrite app_nil_r. reflexivity.
  - rewrite Hw2. reflexivity.
  - unfold Facade.begin_callback. rewrite Hb in Hs. simpl in Hs.
    rewrite Hs. reflexivity.
  - rewrite Hw2. reflexivity.
Qed.

End FacadeProperties.

(** * allocateIds *)

Section AllocateIds.

Import Protocol.

Context {Key Obj : Type} `{Codec : EntityCodec Key Obj}.

Local Abbreviation World := (@World Key Obj).
Local Abbreviation M := (@M Key Obj).
Local Abbreviation Allocating := (@Facade.Allocating Key Obj).

Implicit Types (w : World) (cb : callback) (s : Allocating).
Implicit Types (err res body resp : value).

(** The world [w] after the events [es]. *)
Local Abbreviation after w es :=
  {| txn := txn w; global := global w; trace := trace w ++ es |}.

Lemma allocateLoop_ok d (key : Key) p :
  keyToKeyProto d key = Ok p ->
  forall n acc w,
    Facade.allocateLoop n d key acc w =
    (after w (repeat (KeyToKeyProto d key) n), Ok (acc ++ repeat p n)).
Proof.
  intros Hk. induction n as [|n IH]; intros acc w; simpl.
  - unfold ret. rewrite !app_nil_r. destruct w; reflexivity.
  - unfold bind, call_keyToKeyProto, emit, lift. simpl. rewrite Hk.
    rewrite IH. simpl. rewrite <- !app_assoc. reflexivity.
Qed.

(** X17: [allocateIds] throws to its caller when the key is complete,
    having called nothing and sent nothing.  For an incomplete key the
    codec encodes, it gives the codec the id of the dataset (as [putAll],
    [getAll] and [delAll] do not, see C3), [n] times, and sends one
    [allocateIds] request whose body is [{keys: [...]}] with [n] copies of
    the proto. *)
Theorem allocateIds_asks_for_n_keys
  (this : Facade.Dataset) (key : Key) (n : Z) (p : value) cb s :
  (isKeyComplete key = true ->
   Facade.allocateIds this key n cb s =
   (s, Throw (Error "An incomplete key should be provided."))) /\
  (isKeyComplete key = false ->
   keyToKeyProto (VStr (Facade.id this)) key = Ok p ->
   Facade.allocateIds this key n cb s =
   ({| Facade.world :=
         after (Facade.world s)
               (repeat (KeyToKeyProto (VStr (Facade.id this)) key) (Z.to_nat n));
       Facade.allocations :=
         Facade.allocations s ++
         [(makeReq_opts (txn (Facade.world s)) "allocateIds"
             (VObj [("keys", VArr (repeat p (Z.to_nat n)))]), cb)] |},
    Ok tt)).
Proof.
  unfold Facade.allocateIds. split.
  - intros Hc. rewrite Hc. reflexivity.
  - intros Hc Hk. rewrite Hc, (allocateLoop_ok _ key p Hk). reflexivity.
Qed.

(** X18: for an incomplete key, [allocateIds] with [n <= 0] sends a
    request for no keys, without calling the codec; with [n > 0] and a
    key the codec refuses, it throws what the codec throws after one call
    of the codec, and sends nothing. *)
Theorem allocateIds_at_the_bounds
  (this : Facade.Dataset) (key : Key) (n : Z) (e : exn) cb s :
  isKeyComplete key = false ->
  ((n <= 0)%Z ->
   Facade.allocateIds this key n cb s =
   ({| Facade.world := Facade.world s;
       Facade.allocations :=
         Facade.allocations s ++
         [(makeReq_opts (txn (Facade.world s)) "allocateIds"
             (VObj [("keys", VArr [])]), cb)] |},
    Ok tt)) /\
  ((0 < n)%Z ->
   keyToKeyProto (VStr (Facade.id this)) key = Throw e ->
   Facade.allocateIds this key n cb s =
   ({| Facade.world :=
         after (Facade.world s) [KeyToKeyProto (VStr (Facade.id this)) key];
       Facade.allocations := Facade.allocations s |},
    Throw e)).
Proof.
  intros Hc. unfold Facade.allocateIds. rewrite Hc. split.
  - intros Hn. replace (Z.to_nat n) with 0%nat by lia. reflexivity.
  - intros Hn Hk. destruct (Z.to_nat n) as [|m] eqn:E; [lia|].
    simpl. unfold bind, call_keyToKeyProto, emit, lift. simpl.
    rewrite Hk. reflexivity.
Qed.

Lemma traverse_Forall2 {A B} (f : A -> result B) (l : list A) (l' : list B) :
  Forall2 (fun a b => f a = Ok b) l l' -> traverse f l = Ok l'.
Proof.
  induction 1 as [|a b l l' Ha HF IH]; simpl; [reflexivity|].
  rewrite Ha, IH. reflexivity.
Qed.

(** X19: when the response to [allocateIds] has no error and its [keys]
    is an array of key protos the codec decodes, the callback is called
    with [null] and the decoded keys, in the order of the response and as
    many as it has. *)
Theorem allocateIds_response_decodes_keys
  (items : list value) (keys : list Key) (f : nat) err res body w :
  truthy err = false ->
  truthy (prop body "error") = false ->
  prop body "keys" = VArr items ->
  Forall2 (fun item k => keyFromKeyProto item = Ok k) items keys ->
  Facade.allocateIds_response (CbFun f) err res body w =
  (after w [Call f [AVal VNull; AKeys keys]], Ok tt) /\
  List.length keys = List.length items.
Proof.
  intros Herr Hbe Hkeys HF. split.
  - unfold Facade.allocateIds_response, delivered.
    rewrite Hbe, andb_false_r. simpl.
    unfold Facade.allocateIds_callback. rewrite Herr.
    unfold bind, lift, member.
    assert (Hn : isNullish body = false)
      by (destruct body; simpl in Hkeys; try discriminate; reflexivity).
    rewrite Hn, Hkeys, (traverse_Forall2 _ _ _ HF). reflexivity.
  - symmetry. apply (Forall2_length HF).
Qed.

(** X20: when the response to [allocateIds] is an error, the callback is
    called with the error alone.  The callback is not optional: without
    one, an error response ends in a [TypeError]; and so does, with or
    without one, a response without error whose body has no array under
    [keys], the callback not being called. *)
Theorem allocateIds_response_failures (f : nat) cb err res body w :
  (truthy (fst (delivered err body)) = true ->
   Facade.allocateIds_response (CbFun f) err res body w =
   (after w [Call f [AVal (fst (delivered err body))]], Ok tt) /\
   Facade.allocateIds_response CbUndefined err res body w =
   (w, Throw (TypeError "undefined is not a function"))) /\
  (truthy err = false ->
   truthy body && truthy (prop body "error") = false ->
   (forall items, prop body "keys" <> VArr items) ->
   exists msg,
     Facade.allocateIds_response cb err res body w =
     (w, Throw (TypeError msg))).
Proof.
  unfold Facade.allocateIds_response, Facade.allocateIds_callback. split.
  - intros He. rewrite He. split; reflexivity.
  - intros Herr Hbe Hkeys. unfold delivered. rewrite Hbe. simpl.
    rewrite Herr. unfold bind, lift, member.
    destruct (isNullish body); [eexists; reflexivity|].
    destruct (prop body "keys") as [| | | | |items|] eqn:E;
      try (eexists; reflexivity).
    destruct (Hkeys items eq_refl).
Qed.

End AllocateIds.

(** * The further properties on sample data *)

Section MoreExamples.

Import Protocol.
Import Example.
Import Samples.

Local Abbreviation Record := (@Entity.Entity Z).

(** X2 on a [begin], its response and a [getAll]. *)
Lemma fields_of_a_run_witness :
  let acts := [ABegin (CbFun 0);
               AResponse (HBegin (CbFun 0)) VNull VUndefined (VStr "tx-1");
               AGetAll [alice] (CbFun 1)] in
  existsb isOutcome acts = false /\
  finalized (txn (run acts fresh)) = VUndefined.
Proof.
  intros acts. split; [reflexivity|].
  apply (proj2 (proj2 (fields_of_a_run acts fresh))). reflexivity.
Defined.

(** X3 on a [delAll]. *)
Lemma callbacks_wait_for_responses_witness :
  let a : @action Entity.Key Record := ADelAll [alice] (CbFun 0) in
  isResponse a = false /\
  (the_calls (fst (perform a withGlobalId)) = the_calls withGlobalId \/
   exists f,
     a = AFinalize (CbFun f) /\
     truthy (finalized (txn withGlobalId)) = true /\
     the_calls (fst (perform a withGlobalId)) =
     the_calls withGlobalId ++ [(f, [])]).
Proof.
  intros a. split; [reflexivity|].
  apply (callbacks_wait_for_responses a withGlobalId). reflexivity.
Defined.

(** The two keys of the examples and their protos. *)
Lemma both_encoded :
  Forall2 (fun (k : Entity.Key) p =>
             keyToKeyProto (g_id (global withGlobalId)) k = Ok p)
          [alice; newcomer] [aliceProto; newcomerProto].
Proof. repeat constructor. Defined.

(** X4 on two keys, where the global [id] is a dataset id. *)
Lemma getAll_sends_the_protos_witness :
  Forall2 (fun (k : Entity.Key) p =>
             keyToKeyProto (g_id (global withGlobalId)) k = Ok p)
          [alice; newcomer] [aliceProto; newcomerProto] /\
  snd (getAll [alice; newcomer] (CbFun 0) withGlobalId) = Ok tt /\
  the_requests (fst (getAll [alice; newcomer] (CbFun 0) withGlobalId)) =
  [(post "lookup" (VObj [("keys", VArr [aliceProto; newcomerProto])]),
    HGetAll (CbFun 0))].
Proof.
  split; [exact both_encoded|].
  rewrite (getAll_sends_the_protos [alice; newcomer] [aliceProto; newcomerProto]
             (CbFun 0) withGlobalId both_encoded).
  split; reflexivity.
Defined.

(** X5 on two keys. *)
Lemma delAll_sends_the_protos_witness :
  Forall2 (fun (k : Entity.Key) p =>
             keyToKeyProto (g_id (global withGlobalId)) k = Ok p)
          [alice; newcomer] [aliceProto; newcomerProto] /\
  snd (delAll [alice; newcomer] (CbFun 0) withGlobalId) = Ok tt /\
  the_requests (fst (delAll [alice; newcomer] (CbFun 0) withGlobalId)) =
  [(post "commit"
      (VObj [("mode", VStr "NON_TRANSACTIONAL");
             ("mutation",
              VObj [("delete", VArr [aliceProto; newcomerProto])])]),
    HDelAll (CbFun 0))].
Proof.
  split; [exact both_encoded|].
  rewrite (delAll_sends_the_protos [alice; newcomer] [aliceProto; newcomerProto]
             (CbFun 0) withGlobalId both_encoded).
  split; reflexivity.
Defined.

(** X6 on a key with two incomplete segments between two good keys. *)
Lemma getAll_delAll_throw_what_the_codec_throws_witness :
  let e := Error "A key has at most one incomplete segment" in
  Forall2 (fun (k : Entity.Key) p =>
             keyToKeyProto (g_id (global withGlobalId)) k = Ok p)
          [alice] [aliceProto] /\
  keyToKeyProto (g_id (global withGlobalId)) orphan = Throw e /\
  snd (getAll [alice; orphan; newcomer] (CbFun 0) withGlobalId) = Throw e /\
  snd (delAll [alice; orphan; newcomer] (CbFun 0) withGlobalId) = Throw e /\
  the_requests (fst (getAll [alice; orphan; newcomer] (CbFun 0) withGlobalId))
  = [].
Proof.
  intros e.
  assert (HF : Forall2 (fun (k : Entity.Key) p =>
                          keyToKeyProto (g_id (global withGlobalId)) k = Ok p)
                       [alice] [aliceProto]) by (repeat constructor).
  assert (He : keyToKeyProto (g_id (global withGlobalId)) orphan = Throw e)
    by reflexivity.
  split; [exact HF|]. split; [exact He|].
  destruct (getAll_delAll_throw_what_the_codec_throws
              [alice] [newcomer] orphan [aliceProto] e (CbFun 0) withGlobalId
              HF He) as (Hg & Hd & Hr & _).
  simpl app in Hg, Hd. rewrite Hg, Hd. repeat split.
Defined.

(** X7 on an entity holding a function after a good one. *)
Lemma putAll_throws_what_the_codec_throws_witness :
  let e := Error "Unsupported property value: function" in
  entityToEntityProto oddData = Throw e /\
  snd (putAll [alice; newcomer] [aliceData; oddData] (CbFun 0) begun) = Throw e /\
  the_requests (fst (putAll [alice; newcomer] [aliceData; oddData] (CbFun 0)
                       begun)) = the_requests begun /\
  the_calls (fst (putAll [alice; newcomer] [aliceData; oddData] (CbFun 0)
                    begun)) = the_calls begun.
Proof.
  intros e.
  assert (He : entityToEntityProto oddData = Throw e) by reflexivity.
  split; [exact He|].
  refine (putAll_throws_what_the_codec_throws
            [alice] [] [aliceData] [] newcomer oddData [aliceEntity] e
            (CbFun 0) begun eq_refl eq_refl _ (or_introl He)).
  repeat constructor. exists aliceFields, aliceProto. repeat split.
Defined.

(** X8 on Alice, whose key is complete. *)
Lemma put_sends_one_entity_witness :
  entityToEntityProto aliceData = Ok aliceFields /\
  keyToKeyProto (id (txn begun)) alice = Ok aliceProto /\
  the_requests (fst (put alice aliceData (CbFun 0) begun)) =
  the_requests begun ++
  [(post "commit"
      (VObj [("mode", VStr "NON_TRANSACTIONAL");
             ("mutation", VObj [("update", VArr [aliceEntity]);
                                ("insertAutoId", VArr [])])]),
    HPutAll (CbFun 0))].
Proof.
  assert (Ho : entityToEntityProto aliceData = Ok aliceFields) by reflexivity.
  assert (Hk : keyToKeyProto (id (txn begun)) alice = Ok aliceProto)
    by reflexivity.
  split; [exact Ho|]. split; [exact Hk|].
  rewrite (put_sends_one_entity alice aliceData aliceFields aliceProto
             (CbFun 0) begun Ho Hk).
  reflexivity.
Defined.

(** Alice as the server sends her back. *)
Lemma alice_decoded :
  Forall2 (fun (item : value) (ko : Entity.Key * Record) =>
             exists e kp,
               member item "entity" = Ok e /\
               member e "key" = Ok kp /\
               keyFromKeyProto kp = Ok (fst ko) /\
               entityFromEntityProto e = Ok (snd ko))
          [VObj [("entity", aliceEntity)]] [(alice, aliceData)].
Proof.
  repeat constructor. exists aliceEntity, aliceProto. repeat split.
Defined.

(** X9 on a response that found Alice. *)
Lemma getAll_response_decodes_found_witness :
  truthy VNull = false /\
  truthy (prop foundAlice "error") = false /\
  prop foundAlice "found" = VArr [VObj [("entity", aliceEntity)]] /\
  the_calls (fst (makeReq_callback (HGetAll (CbFun 0)) VNull VUndefined
                    foundAlice fresh)) =
  [(0%nat, [AVal VNull; AKeys [alice]; AObjs [aliceData]])].
Proof.
  split; [reflexivity|]. split; [reflexivity|]. split; [reflexivity|].
  rewrite (proj1 (getAll_response_decodes_found
                    [VObj [("entity", aliceEntity)]] [(alice, aliceData)]
                    (CbFun 0) VNull VUndefined foundAlice fresh
                    eq_refl eq_refl eq_refl alice_decoded)).
  reflexivity.
Defined.

(** X10 on a response that only lists what is missing. *)
Lemma getAll_response_without_found_witness :
  truthy VNull = false /\
  truthy foundNothing && truthy (prop foundNothing "error") = false /\
  (forall items, prop foundNothing "found" <> VArr items) /\
  exists msg,
    makeReq_callback (HGetAll (CbFun 0)) VNull VUndefined foundNothing fresh =
    (fresh, Throw (TypeError msg)).
Proof.
  assert (H : forall items, prop foundNothing "found" <> VArr items)
    by (intros items; discriminate).
  split; [reflexivity|]. split; [reflexivity|]. split; [exact H|].
  apply (getAll_response_without_found (CbFun 0) VNull VUndefined foundNothing
           fresh eq_refl eq_refl H).
Defined.

(** X11 on a commit the service refused. *)
Lemma finalize_after_a_failure_witness :
  let w1 := fst (makeReq_callback (HCommit (CbFun 0)) VNull VUndefined
                   unavailable begun) in
  truthy (fst (delivered VNull unavailable)) = true /\
  the_calls w1 = [(0%nat, [AVal (VObj [("code", VNum 503)])])] /\
  the_requests (fst (finalize (CbFun 1) w1)) = the_requests w1 /\
  the_calls (fst (finalize (CbFun 1) w1)) = the_calls w1 ++ [(1%nat, [])].
Proof.
  intros w1. split; [reflexivity|]. split; [reflexivity|].
  rewrite (proj1 (finalize_after_a_failure false (CbFun 0) 1 VNull VUndefined
                    unavailable begun eq_refl)).
  split; reflexivity.
Defined.

(** X13 on a [get] of Alice that finds her. *)
Lemma get_gives_the_first_found_witness :
  let g := names (Facade.GetCallback (CbFun 0)) in
  keyToKeyProto (g_id (global withGlobalId)) alice = Ok aliceProto /\
  prop foundAlice "found" = VArr [VObj [("entity", aliceEntity)]] /\
  the_requests (fst (Facade.get names alice (CbFun 0) withGlobalId)) =
  [(post "lookup" (VObj [("keys", VArr [aliceProto])]), HGetAll (CbFun g))] /\
  the_calls (fst (makeReq_callback (HGetAll (CbFun g)) VNull VUndefined
                    foundAlice fresh)) =
  [(g, [AVal VNull; AKeys [alice]; AObjs [aliceData]])] /\
  Facade.get_callback (CbFun 0) VNull (Some [alice]) (Some [aliceData]) =
  Ok (0%nat, [Facade.IVal VNull; Facade.IKey alice; Facade.IObj aliceData]).
Proof.
  intros g.
  assert (Hk : keyToKeyProto (g_id (global withGlobalId)) alice = Ok aliceProto)
    by reflexivity.
  assert (Hf : prop foundAlice "found" = VArr [VObj [("entity", aliceEntity)]])
    by reflexivity.
  split; [exact Hk|]. split; [exact Hf|].
  destruct (get_gives_the_first_found names alice aliceProto
              [VObj [("entity", aliceEntity)]] [(alice, aliceData)]
              (CbFun 0) VNull VUndefined foundAlice withGlobalId fresh
              Hk eq_refl eq_refl Hf alice_decoded) as (H1 & H2 & H3).
  split; [exact H1|]. split; [|exact H3].
  fold g in H2. rewrite H2. reflexivity.
Defined.

(** X14 on a [get] the service refuses. *)
Lemma get_passes_the_error_witness :
  let g := names (Facade.GetCallback (CbFun 0)) in
  let e := VObj [("code", VNum 503)] in
  truthy (fst (delivered VNull unavailable)) = true /\
  the_calls (fst (makeReq_callback (HGetAll (CbFun g)) VNull VUndefined
                    unavailable fresh)) = [(g, [AVal e])] /\
  Facade.get_callback (Key := Entity.Key) (Obj := Record)
    (CbFun 0) e None None = Ok (0%nat, [Facade.IVal e]).
Proof.
  intros g e. split; [reflexivity|].
  destruct (get_passes_the_error names (CbFun 0) VNull VUndefined unavailable
              fresh eq_refl) as (H1 & H2).
  split; [|exact H2]. fold g in H1. rewrite H1. reflexivity.
Defined.

(** X15 on a [beginTransaction] the service refuses. *)
Lemma runInTransaction_stops_at_a_failed_begin_witness :
  let b := names (Facade.BeginCallback (CbFun 7) (CbFun 0)) in
  let e := VObj [("code", VNum 503)] in
  let w1 := fst (Facade.runInTransaction names abc (CbFun 7) (CbFun 0)
                   abcWorld) in
  truthy (fst (delivered VNull unavailable)) = true /\
  the_requests w1 = [(post "beginTransaction" VNull, HBegin (CbFun b))] /\
  the_calls (fst (makeReq_callback (HBegin (CbFun b)) VNull VUndefined
                    unavailable w1)) = [(b, [AVal e])] /\
  Facade.begin_callback (Key := Entity.Key) (Obj := Record)
    (CbFun 7) (CbFun 0) e = Ok (0%nat, [Facade.IVal e]).
Proof.
  intros b e w1. split; [reflexivity|].
  destruct (runInTransaction_stops_at_a_failed_begin names abc (CbFun 7)
              (CbFun 0) VNull VUndefined unavailable abcWorld eq_refl)
    as (H1 & H2 & _ & H4).
  split; [exact (f_equal (fun r => the_requests (fst r)) H1)|].
  split; [|exact H4].
  exact (f_equal (fun r => the_calls (fst r)) H2).
Defined.

(** X16 on a [beginTransaction] that succeeds. *)
Lemma runInTransaction_hands_over_the_transaction_witness :
  let b := names (Facade.BeginCallback (CbFun 7) (CbFun 0)) in
  let body := VObj [("transaction", VStr "dHgtMQ==")] in
  let w1 := fst (Facade.runInTransaction names abc (CbFun 7) (CbFun 0)
                   abcWorld) in
  let w2 := fst (makeReq_callback (HBegin (CbFun b)) VNull VUndefined body w1) in
  truthy (fst (delivered VNull body)) = false /\
  id (txn w2) = body /\
  Facade.begin_callback (Key := Entity.Key) (Obj := Record)
    (CbFun 7) (CbFun 0) VNull =
  Ok (7%nat, [Facade.ITransaction; Facade.IDone (CbFun 0)]) /\
  the_requests (fst (Facade.done (CbFun 0) w2)) =
  the_requests w2 ++
  [(post "commit" (VObj [("transaction", body)]), HCommit (CbFun 0))].
Proof.
  intros b body w1 w2. split; [reflexivity|].
  destruct (runInTransaction_hands_over_the_transaction names abc (CbFun 7)
              (CbFun 0) VNull VUndefined body abcWorld eq_refl)
    as (_ & H2 & H3 & H4).
  split; [exact H2|]. split; [exact H3|].
  exact (f_equal (fun r => the_requests (fst r)) H4).
Defined.

(** X17 on three ids for a newcomer, and on Alice, who has one. *)
Lemma allocateIds_asks_for_n_keys_witness :
  isKeyComplete alice = true /\
  snd (Facade.allocateIds abc alice 3 (CbFun 0) abcAllocating) =
  Throw (Error "An incomplete key should be provided.") /\
  isKeyComplete newcomer = false /\
  keyToKeyProto (VStr (Facade.id abc)) newcomer = Ok newcomerProto /\
  Facade.allocations
    (fst (Facade.allocateIds abc newcomer 3 (CbFun 0) abcAllocating)) =
  [(post "allocateIds"
      (VObj [("keys", VArr [newcomerProto; newcomerProto; newcomerProto])]),
    CbFun 0)].
Proof.
  assert (Ha : isKeyComplete alice = true) by reflexivity.
  assert (Hn : isKeyComplete newcomer = false) by reflexivity.
  assert (Hk : keyToKeyProto (VStr (Facade.id abc)) newcomer = Ok newcomerProto)
    by reflexivity.
  split; [exact Ha|]. split.
  - rewrite (proj1 (allocateIds_asks_for_n_keys abc alice 3 VNull (CbFun 0)
                      abcAllocating) Ha).
    reflexivity.
  - split; [exact Hn|]. split; [exact Hk|].
    rewrite (proj2 (allocateIds_asks_for_n_keys abc newcomer 3 newcomerProto
                      (CbFun 0) abcAllocating) Hn Hk).
    reflexivity.
Defined.

(** X18 on no id at all, and on two ids for a key the codec refuses. *)
Lemma allocateIds_at_the_bounds_witness :
  let e := Error "A key has at most one incomplete segment" in
  isKeyComplete orphan = false /\
  keyToKeyProto (VStr (Facade.id abc)) orphan = Throw e /\
  Facade.allocations
    (fst (Facade.allocateIds abc orphan 0 (CbFun 0) abcAllocating)) =
  [(post "allocateIds" (VObj [("keys", VArr [])]), CbFun 0)] /\
  Facade.allocateIds abc orphan 2 (CbFun 0) abcAllocating =
  ({| Facade.world :=
        {| txn := txn abcWorld; global := global abcWorld;
           trace := [KeyToKeyProto (VStr "s~abc") orphan] |};
      Facade.allocations := [] |}, Throw e).
Proof.
  intros e.
  assert (Hc : isKeyComplete orphan = false) by reflexivity.
  assert (Hk : keyToKeyProto (VStr (Facade.id abc)) orphan = Throw e)
    by reflexivity.
  split; [exact Hc|]. split; [exact Hk|]. split.
  - rewrite (proj1 (allocateIds_at_the_bounds abc orphan 0 e (CbFun 0)
                      abcAllocating Hc)) by lia.
    reflexivity.
  - rewrite (proj2 (allocateIds_at_the_bounds abc orphan 2 e (CbFun 0)
                      abcAllocating Hc)) by (lia || exact Hk).
    reflexivity.
Defined.

(** X19 on a response with one key. *)
Lemma allocateIds_response_decodes_keys_witness :
  prop allocated "keys" = VArr [aliceProto] /\
  Forall2 (fun item (k : Entity.Key) => keyFromKeyProto item = Ok k)
          [aliceProto] [alice] /\
  the_calls (fst (Facade.allocateIds_response (CbFun 0) VNull VUndefined
                    allocated abcWorld)) =
  [(0%nat, [AVal VNull; AKeys [alice]])].
Proof.
  assert (HF : Forall2 (fun item (k : Entity.Key) =>
                          keyFromKeyProto item = Ok k)
                       [aliceProto] [alice]) by (repeat constructor).
  split; [reflexivity|]. split; [exact HF|].
  rewrite (proj1 (allocateIds_response_decodes_keys [aliceProto] [alice] 0
                    VNull VUndefined allocated abcWorld
                    eq_refl eq_refl eq_refl HF)).
  reflexivity.
Defined.

(** X20 on a service error, and on a response with an empty body. *)
Lemma allocateIds_response_failures_witness :
  truthy (fst (delivered VNull unavailable)) = true /\
  the_calls (fst (Facade.allocateIds_response (CbFun 0) VNull VUndefined
                    unavailable abcWorld)) =
  [(0%nat, [AVal (VObj [("code", VNum 503)])])] /\
  (forall items, prop (VObj []) "keys" <> VArr items) /\
  exists msg,
    Facade.allocateIds_response (CbFun 0) VNull VUndefined (VObj []) abcWorld =
    (abcWorld, Throw (TypeError msg)).
Proof.
  assert (H : forall items, prop (VObj []) "keys" <> VArr items)
    by (intros items; discriminate).
  split; [reflexivity|]. split.
  - rewrite (proj1 (proj1 (allocateIds_response_failures 0 (CbFun 0)
                             VNull VUndefined unavailable abcWorld) eq_refl)).
    reflexivity.
  - split; [exact H|].
    apply (proj2 (allocateIds_response_failures 0 (CbFun 0) VNull VUndefined
                    (VObj []) abcWorld) eq_refl eq_refl H).
Defined.

End MoreExamples.
